(** * go-design-patterns: Singleton, Factory and Builder examples

    A shallow embedding of the three Go packages [builder], [factory] and
    [singleton], and the properties their documentation states.

    Conventions of the embedding:
    - Go [int] and [time.Duration] values are integers of [Z]. The only
      arithmetic on them is [len(s) - 4], which cannot leave the range of
      [int], and [connID++], which wraps at 64 bits.
    - Go strings are byte strings, [string] of the Standard Library: one
      [ascii] per byte, [String.length] is Go's [len].
    - Pointers are addresses in typed stores; [nil] is a constructor of its
      own. Nothing is ever freed (Go is garbage collected), so allocation
      appends to the store.
    - A call either returns or panics; code that threads the heap through
      several calls runs in a small state-and-panic monad. *)

From Stdlib Require Import ZArith Ascii String PrimFloat.
From stdpp Require Import list gmap strings relations.

Local Open Scope string_scope.
Local Open Scope Z_scope.

(** ** The parts of the Go runtime the packages rely on *)

Module golang.

(** Run-time panics the code can raise. *)
Inductive panic : Type :=
| NilDereference
| SliceBoundsOutOfRange (low : Z).

(** An evaluated argument of a [fmt.Printf]/[fmt.Println] call. *)
Inductive fmt_arg : Type :=
| arg_int (z : Z)
| arg_string (s : string)
| arg_float64 (x : float).

(** One write to standard output: the format string and its evaluated
    arguments ([fmt.Println(s)] is recorded as format [s ++ "\n"] with no
    argument). The arguments are evaluated before anything is printed. *)
Record print_event : Type := Printf { fmt_format : string; fmt_args : list fmt_arg }.

(** A value of type [map[string]string]: the nil map, or an allocated map.
    Reading from the nil map behaves like reading from an empty one. *)
Inductive string_map : Type :=
| nil_map
| make_map (m : gmap string string).

(** [m[k]] for a [map[string]string]: the zero value [""] when [k] is absent. *)
Definition map_index (m : string_map) (k : string) : string :=
  match m with
  | nil_map => ""
  | make_map m => default "" (m !! k)
  end.

(** [m[k]] for a [map[string]bool]: the zero value [false] when [k] is absent. *)
Definition bool_map_index (m : gmap string bool) (k : string) : bool :=
  default false (m !! k).

(** [s[low:]] for a string: panics when [low] is negative or beyond [len(s)]. *)
Definition slice_from (s : string) (low : Z) : panic + string :=
  if (low <? 0) || (Z.of_nat (String.length s) <? low)
  then inl (SliceBoundsOutOfRange low)
  else inr (substring (Z.to_nat low) (String.length s - Z.to_nat low)%nat s).

Definition Second : Z := 1000000000.

(** Characters as opposed to bytes. A Go string holds UTF-8: a character
    takes one to four bytes, the first of which is the only one outside
    128..191. [character_count] is [utf8.RuneCountInString] on well-formed
    text; [len] and slice bounds count bytes. *)
Definition is_continuation_byte (a : ascii) : bool :=
  (128 <=? nat_of_ascii a)%nat && (nat_of_ascii a <=? 191)%nat.

Fixpoint character_count (s : string) : nat :=
  match s with
  | EmptyString => 0%nat
  | String a rest =>
      if is_continuation_byte a then character_count rest
      else S (character_count rest)
  end.

End golang.

(** ** Package builder *)

Module builder.
Import golang.

Record ServerConfig : Type := {
  Host : string;
  Port : Z;
  SSL : bool;
  Timeout : Z;
  MaxConnections : Z;
  ReadTimeout : Z;
  WriteTimeout : Z;
  DatabaseURL : string;
  CacheEnabled : bool;
  LogLevel : string
}.

Record ServerConfigBuilder : Type := { config : ServerConfig }.

Record ValidationError : Type := { Field : string; Message : string }.

(** Method [Error] of [*ValidationError]. *)
Definition Error (e : ValidationError) : string :=
  Field e ++ ": " ++ Message e.

(** *** Memory

    Builders and finished configurations live in two typed stores. A
    [*ServerConfig] is nil, the address of a configuration allocated on its
    own, or the address of the [config] field inside a builder. *)

Inductive builder_ptr : Type :=
| nil_builder
| builder_at (n : nat).

Inductive config_ptr : Type :=
| nil_config
| config_at (n : nat)
| config_field_of (n : nat).

Record heap : Type := {
  builders : list ServerConfigBuilder;
  configs : list ServerConfig
}.

Inductive outcome (A : Type) : Type :=
| Returned (a : A) (h : heap)
| Panicked (p : panic).
Arguments Returned {A} a h.
Arguments Panicked {A} p.

Definition M (A : Type) : Type := heap -> outcome A.

Definition ret {A} (a : A) : M A := fun h => Returned a h.

Definition bind {A B} (m : M A) (k : A -> M B) : M B :=
  fun h => match m h with
           | Returned a h' => k a h'
           | Panicked p => Panicked p
           end.

#[global] Instance M_ret : MRet M := @ret.
#[global] Instance M_bind : MBind M := fun A B k m => bind m k.

(** [new(ServerConfigBuilder)] with the given contents. *)
Definition alloc_builder (b : ServerConfigBuilder) : M builder_ptr :=
  fun h => Returned (builder_at (length (builders h)))
                    {| builders := (builders h ++ [b])%list; configs := configs h |}.

(** A fresh [ServerConfig] variable that escapes to the heap. *)
Definition alloc_config (c : ServerConfig) : M config_ptr :=
  fun h => Returned (config_at (length (configs h)))
                    {| builders := builders h; configs := (configs h ++ [c])%list |}.

(** Read [b.config]. *)
Definition load_staged (b : builder_ptr) : M ServerConfig :=
  fun h => match b with
           | nil_builder => Panicked NilDereference
           | builder_at n =>
               match builders h !! n with
               | Some bld => Returned (config bld) h
               | None => Panicked NilDereference
               end
           end.

(** Overwrite [b.config]. *)
Definition store_staged (b : builder_ptr) (c : ServerConfig) : M unit :=
  fun h => match b with
           | nil_builder => Panicked NilDereference
           | builder_at n =>
               match builders h !! n with
               | Some _ =>
                   Returned tt {| builders := <[n := {| config := c |}]> (builders h);
                                  configs := configs h |}
               | None => Panicked NilDereference
               end
           end.

(** Read [*p] for a [*ServerConfig]. *)
Definition load_config (p : config_ptr) (h : heap) : option ServerConfig :=
  match p with
  | nil_config => None
  | config_at n => configs h !! n
  | config_field_of n => config <$> builders h !! n
  end.

(** Assignments [c.F = v] to one field of a configuration. *)
Definition with_Host (v : string) (c : ServerConfig) : ServerConfig :=
  {| Host := v; Port := Port c; SSL := SSL c; Timeout := Timeout c;
     MaxConnections := MaxConnections c; ReadTimeout := ReadTimeout c;
     WriteTimeout := WriteTimeout c; DatabaseURL := DatabaseURL c;
     CacheEnabled := CacheEnabled c; LogLevel := LogLevel c |}.

Definition with_Port (v : Z) (c : ServerConfig) : ServerConfig :=
  {| Host := Host c; Port := v; SSL := SSL c; Timeout := Timeout c;
     MaxConnections := MaxConnections c; ReadTimeout := ReadTimeout c;
     WriteTimeout := WriteTimeout c; DatabaseURL := DatabaseURL c;
     CacheEnabled := CacheEnabled c; LogLevel := LogLevel c |}.

Definition with_SSL (v : bool) (c : ServerConfig) : ServerConfig :=
  {| Host := Host c; Port := Port c; SSL := v; Timeout := Timeout c;
     MaxConnections := MaxConnections c; ReadTimeout := ReadTimeout c;
     WriteTimeout := WriteTimeout c; DatabaseURL := DatabaseURL c;
     CacheEnabled := CacheEnabled c; LogLevel := LogLevel c |}.

Definition with_Timeout (v : Z) (c : ServerConfig) : ServerConfig :=
  {| Host := Host c; Port := Port c; SSL := SSL c; Timeout := v;
     MaxConnections := MaxConnections c; ReadTimeout := ReadTimeout c;
     WriteTimeout := WriteTimeout c; DatabaseURL := DatabaseURL c;
     CacheEnabled := CacheEnabled c; LogLevel := LogLevel c |}.

Definition with_MaxConnections (v : Z) (c : ServerConfig) : ServerConfig :=
  {| Host := Host c; Port := Port c; SSL := SSL c; Timeout := Timeout c;
     MaxConnections := v; ReadTimeout := ReadTimeout c;
     WriteTimeout := WriteTimeout c; DatabaseURL := DatabaseURL c;
     CacheEnabled := CacheEnabled c; LogLevel := LogLevel c |}.

Definition with_ReadTimeout (v : Z) (c : ServerConfig) : ServerConfig :=
  {| Host := Host c; Port := Port c; SSL := SSL c; Timeout := Timeout c;
     MaxConnections := MaxConnections c; ReadTimeout := v;
     WriteTimeout := WriteTimeout c; DatabaseURL := DatabaseURL c;
     CacheEnabled := CacheEnabled c; LogLevel := LogLevel c |}.

Definition with_WriteTimeout (v : Z) (c : ServerConfig) : ServerConfig :=
  {| Host := Host c; Port := Port c; SSL := SSL c; Timeout := Timeout c;
     MaxConnections := MaxConnections c; ReadTimeout := ReadTimeout c;
     WriteTimeout := v; DatabaseURL := DatabaseURL c;
     CacheEnabled := CacheEnabled c; LogLevel := LogLevel c |}.

Definition with_DatabaseURL (v : string) (c : ServerConfig) : ServerConfig :=
  {| Host := Host c; Port := Port c; SSL := SSL c; Timeout := Timeout c;
     MaxConnections := MaxConnections c; ReadTimeout := ReadTimeout c;
     WriteTimeout := WriteTimeout c; DatabaseURL := v;
     CacheEnabled := CacheEnabled c; LogLevel := LogLevel c |}.

Definition with_CacheEnabled (v : bool) (c : ServerConfig) : ServerConfig :=
  {| Host := Host c; Port := Port c; SSL := SSL c; Timeout := Timeout c;
     MaxConnections := MaxConnections c; ReadTimeout := ReadTimeout c;
     WriteTimeout := WriteTimeout c; DatabaseURL := DatabaseURL c;
     CacheEnabled := v; LogLevel := LogLevel c |}.

Definition with_LogLevel (v : string) (c : ServerConfig) : ServerConfig :=
  {| Host := Host c; Port := Port c; SSL := SSL c; Timeout := Timeout c;
     MaxConnections := MaxConnections c; ReadTimeout := ReadTimeout c;
     WriteTimeout := WriteTimeout c; DatabaseURL := DatabaseURL c;
     CacheEnabled := CacheEnabled c; LogLevel := v |}.

(** [NewServerConfigBuilder]: fields that the literal leaves out ([Host],
    [DatabaseURL]) hold their zero value. *)
Definition NewServerConfigBuilder : M builder_ptr :=
  alloc_builder
    {| config := {| Host := "";
                    Port := 8080;
                    SSL := false;
                    Timeout := 30 * Second;
                    MaxConnections := 100;
                    ReadTimeout := 10 * Second;
                    WriteTimeout := 10 * Second;
                    DatabaseURL := "";
                    CacheEnabled := false;
                    LogLevel := "info" |} |}.

Definition empty_heap : heap := {| builders := []; configs := [] |}.

(** *** Methods of [*ServerConfigBuilder] *)

Module Method.

Definition Host (host : string) (b : builder_ptr) : M builder_ptr :=
  c ← load_staged b; store_staged b (with_Host host c);; mret b.

Definition Port (port : Z) (b : builder_ptr) : M builder_ptr :=
  c ← load_staged b; store_staged b (with_Port port c);; mret b.

Definition EnableSSL (enable : bool) (b : builder_ptr) : M builder_ptr :=
  c ← load_staged b; store_staged b (with_SSL enable c);; mret b.

Definition Timeout (timeout : Z) (b : builder_ptr) : M builder_ptr :=
  c ← load_staged b; store_staged b (with_Timeout timeout c);; mret b.

Definition MaxConnections (max : Z) (b : builder_ptr) : M builder_ptr :=
  c ← load_staged b; store_staged b (with_MaxConnections max c);; mret b.

Definition ReadTimeout (timeout : Z) (b : builder_ptr) : M builder_ptr :=
  c ← load_staged b; store_staged b (with_ReadTimeout timeout c);; mret b.

Definition WriteTimeout (timeout : Z) (b : builder_ptr) : M builder_ptr :=
  c ← load_staged b; store_staged b (with_WriteTimeout timeout c);; mret b.

Definition DatabaseURL (url : string) (b : builder_ptr) : M builder_ptr :=
  c ← load_staged b; store_staged b (with_DatabaseURL url c);; mret b.

Definition EnableCache (enable : bool) (b : builder_ptr) : M builder_ptr :=
  c ← load_staged b; store_staged b (with_CacheEnabled enable c);; mret b.

Definition LogLevel (level : string) (b : builder_ptr) : M builder_ptr :=
  c ← load_staged b; store_staged b (with_LogLevel level c);; mret b.

(** The map literal of [Build]. *)
Definition validLogLevels : gmap string bool :=
  <["error" := true]> (<["warn" := true]> (<["info" := true]> (<["debug" := true]> ∅))).

(** [Build] returns a [*ServerConfig] and an [error]; the error, a
    [*ValidationError] behind the [error] interface, is given by its contents. *)
Definition Build (b : builder_ptr) : M (config_ptr * option ValidationError) :=
  c ← load_staged b;
  if String.eqb (builder.Host c) ""
  then mret (nil_config, Some {| Field := "Host"; Message := "host is required" |})
  else if (builder.Port c <=? 0) || (builder.Port c >? 65535)
  then mret (nil_config,
            Some {| Field := "Port"; Message := "port must be between 1 and 65535" |})
  else if negb (bool_map_index validLogLevels (builder.LogLevel c))
  then mret (nil_config,
            Some {| Field := "LogLevel";
                    Message := "log level must be one of: debug, info, warn, error" |})
  else
    p ← alloc_config c;
    mret (p, None).

End Method.

(** *** Vocabulary for statements about the setters *)

(** The ten fields of [ServerConfig] and the values they hold. *)
Inductive field : Type :=
| FHost | FPort | FSSL | FTimeout | FMaxConnections
| FReadTimeout | FWriteTimeout | FDatabaseURL | FCacheEnabled | FLogLevel.

Inductive value : Type :=
| VString (s : string)
| VInt (z : Z)
| VBool (b : bool).

Definition get_field (f : field) (c : ServerConfig) : value :=
  match f with
  | FHost => VString (Host c)
  | FPort => VInt (Port c)
  | FSSL => VBool (SSL c)
  | FTimeout => VInt (Timeout c)
  | FMaxConnections => VInt (MaxConnections c)
  | FReadTimeout => VInt (ReadTimeout c)
  | FWriteTimeout => VInt (WriteTimeout c)
  | FDatabaseURL => VString (DatabaseURL c)
  | FCacheEnabled => VBool (CacheEnabled c)
  | FLogLevel => VString (LogLevel c)
  end.

(** One call of a fluent setter, with its argument. *)
Inductive setter_call : Type :=
| CallHost (host : string)
| CallPort (port : Z)
| CallEnableSSL (enable : bool)
| CallTimeout (timeout : Z)
| CallMaxConnections (max : Z)
| CallReadTimeout (timeout : Z)
| CallWriteTimeout (timeout : Z)
| CallDatabaseURL (url : string)
| CallEnableCache (enable : bool)
| CallLogLevel (level : string).

Definition call_setter (s : setter_call) : builder_ptr -> M builder_ptr :=
  match s with
  | CallHost v => Method.Host v
  | CallPort v => Method.Port v
  | CallEnableSSL v => Method.EnableSSL v
  | CallTimeout v => Method.Timeout v
  | CallMaxConnections v => Method.MaxConnections v
  | CallReadTimeout v => Method.ReadTimeout v
  | CallWriteTimeout v => Method.WriteTimeout v
  | CallDatabaseURL v => Method.DatabaseURL v
  | CallEnableCache v => Method.EnableCache v
  | CallLogLevel v => Method.LogLevel v
  end.

(** The field a setter is meant to write, and the value it is given. *)
Definition target (s : setter_call) : field :=
  match s with
  | CallHost _ => FHost
  | CallPort _ => FPort
  | CallEnableSSL _ => FSSL
  | CallTimeout _ => FTimeout
  | CallMaxConnections _ => FMaxConnections
  | CallReadTimeout _ => FReadTimeout
  | CallWriteTimeout _ => FWriteTimeout
  | CallDatabaseURL _ => FDatabaseURL
  | CallEnableCache _ => FCacheEnabled
  | CallLogLevel _ => FLogLevel
  end.

Definition argument (s : setter_call) : value :=
  match s with
  | CallHost v | CallDatabaseURL v | CallLogLevel v => VString v
  | CallPort v | CallTimeout v | CallMaxConnections v
  | CallReadTimeout v | CallWriteTimeout v => VInt v
  | CallEnableSSL v | CallEnableCache v => VBool v
  end.

(** The assignment a setter performs on the staged configuration. *)
Definition assignment (s : setter_call) : ServerConfig -> ServerConfig :=
  match s with
  | CallHost v => with_Host v
  | CallPort v => with_Port v
  | CallEnableSSL v => with_SSL v
  | CallTimeout v => with_Timeout v
  | CallMaxConnections v => with_MaxConnections v
  | CallReadTimeout v => with_ReadTimeout v
  | CallWriteTimeout v => with_WriteTimeout v
  | CallDatabaseURL v => with_DatabaseURL v
  | CallEnableCache v => with_CacheEnabled v
  | CallLogLevel v => with_LogLevel v
  end.

(** A chain [b.S1(..).S2(..)...]: each setter is called on the pointer the
    previous one returned. *)
Fixpoint chain (calls : list setter_call) (b : builder_ptr) : M builder_ptr :=
  match calls with
  | [] => mret b
  | s :: rest => b' ← call_setter s b; chain rest b'
  end.

(** The configuration a new builder starts from (the literal of
    [NewServerConfigBuilder], zero values filled in). *)
Definition default_config : ServerConfig :=
  {| Host := ""; Port := 8080; SSL := false; Timeout := 30 * Second;
     MaxConnections := 100; ReadTimeout := 10 * Second; WriteTimeout := 10 * Second;
     DatabaseURL := ""; CacheEnabled := false; LogLevel := "info" |}.

(** The staged configuration after a chain of setters. *)
Definition staged_after (calls : list setter_call) (c : ServerConfig) : ServerConfig :=
  fold_left (fun c s => assignment s c) calls c.

(** The expression [NewServerConfigBuilder().S1(..)...Sk(..).Build()]. *)
Definition build_with (calls : list setter_call) : M (config_ptr * option ValidationError) :=
  b ← NewServerConfigBuilder; b' ← chain calls b; Method.Build b'.

(** What makes a staged configuration invalid. *)
Definition host_omitted (c : ServerConfig) : Prop := Host c = "".
Definition port_out_of_range (c : ServerConfig) : Prop := ~ (1 <= Port c <= 65535).
Definition log_level_unknown (c : ServerConfig) : Prop :=
  ~ In (LogLevel c) ["debug"; "info"; "warn"; "error"].

(** A computation ending in [Build] failed with a validation error whose
    [Field] is [f], returning a nil configuration. *)
Definition fails_naming (f : string) (m : M (config_ptr * option ValidationError))
    (h : heap) : Prop :=
  exists msg h',
    m h = Returned (nil_config, Some {| Field := f; Message := msg |}) h'.

(** A computation ending in [Build] succeeded: no error, and a pointer to
    the configuration [c]. *)
Definition succeeds_with (c : ServerConfig) (m : M (config_ptr * option ValidationError))
    (h : heap) : Prop :=
  exists p h', m h = Returned (p, None) h' /\ load_config p h' = Some c.

(** *** Vocabulary for statements about chains and validity *)

#[global] Instance field_eq_dec : EqDecision field.
Proof. solve_decision. Defined.

(** The argument of the last call in the chain that writes field [f], if
    any call does. *)
Fixpoint last_written (f : field) (calls : list setter_call) : option value :=
  match calls with
  | [] => None
  | s :: rest =>
      match last_written f rest with
      | Some v => Some v
      | None => if decide (target s = f) then Some (argument s) else None
      end
  end.

(** A configuration that passes the three checks of [Build]. *)
Definition valid (c : ServerConfig) : Prop :=
  Host c <> "" /\ 1 <= Port c <= 65535 /\
  In (LogLevel c) ["debug"; "info"; "warn"; "error"].

(** What a call returned, if it returned. *)
Definition result_of {A} (o : outcome A) : option A :=
  match o with
  | Returned a _ => Some a
  | Panicked _ => None
  end.

End builder.

(** ** Package factory *)

Module factory.
Import golang.

(** The result of a method call: what it wrote to standard output and the
    value it returned, or the panic that ended it (nothing is printed before
    a panic raised while the arguments of the print are evaluated). *)
Inductive outcome (A : Type) : Type :=
| Returned (out : list print_event) (a : A)
| Panicked (p : panic).
Arguments Returned {A} out a.
Arguments Panicked {A} p.

(** An [error] made by [fmt.Errorf], given by its message. *)
Record error : Type := { Error : string }.

(** The interface [PaymentProcessor]: the method set a type must offer. *)
Class PaymentProcessor (T : Type) : Type := {
  Process : T -> float -> outcome (option error);
  GetName : T -> string
}.

Record CreditCardProcessor : Type := { cardNumber : string; cvv : string }.

Record PayPalProcessor : Type := { email : string }.

Record BankTransferProcessor : Type := { accountNumber : string; routingNumber : string }.

#[global] Instance CreditCardProcessor_methods : PaymentProcessor CreditCardProcessor := {
  Process c amount :=
    match slice_from (cardNumber c) (Z.of_nat (String.length (cardNumber c)) - 4) with
    | inl p => Panicked p
    | inr last4 =>
        Returned [Printf "Processing $%.2f via Credit Card ending in %s\n"
                         [arg_float64 amount; arg_string last4]]
                 None
    end;
  GetName _ := "Credit Card"
}.

#[global] Instance PayPalProcessor_methods : PaymentProcessor PayPalProcessor := {
  Process p amount :=
    Returned [Printf "Processing $%.2f via PayPal for %s\n"
                     [arg_float64 amount; arg_string (email p)]]
             None;
  GetName _ := "PayPal"
}.

#[global] Instance BankTransferProcessor_methods : PaymentProcessor BankTransferProcessor := {
  Process b amount :=
    Returned [Printf "Processing $%.2f via Bank Transfer to account %s\n"
                     [arg_float64 amount; arg_string (accountNumber b)]]
             None;
  GetName _ := "Bank Transfer"
}.

(** A non-nil value of interface type [PaymentProcessor]: its dynamic type
    and the struct its pointer refers to. The structs are never written after
    they are built, so the pointer is represented by what it points to. *)
Inductive handle : Type :=
| credit_card_handle (c : CreditCardProcessor)
| paypal_handle (p : PayPalProcessor)
| bank_transfer_handle (b : BankTransferProcessor).

(** Dynamic dispatch through the interface. *)
#[global] Instance handle_methods : PaymentProcessor handle := {
  Process h amount :=
    match h with
    | credit_card_handle c => Process c amount
    | paypal_handle p => Process p amount
    | bank_transfer_handle b => Process b amount
    end;
  GetName h :=
    match h with
    | credit_card_handle c => GetName c
    | paypal_handle p => GetName p
    | bank_transfer_handle b => GetName b
    end
}.

Definition PaymentType : Type := string.

Definition CreditCard : PaymentType := "credit".
Definition PayPal : PaymentType := "paypal".
Definition BankTransfer : PaymentType := "bank".

(** [CreatePaymentProcessor] returns an interface value and an [error], one
    of them nil ([None]). The [%s] verb of [Errorf] prints the tag as it is. *)
Definition CreatePaymentProcessor (paymentType : PaymentType) (details : string_map)
  : option handle * option error :=
  if String.eqb paymentType CreditCard then
    (Some (credit_card_handle {| cardNumber := map_index details "cardNumber";
                                 cvv := map_index details "cvv" |}),
     None)
  else if String.eqb paymentType PayPal then
    (Some (paypal_handle {| email := map_index details "email" |}), None)
  else if String.eqb paymentType BankTransfer then
    (Some (bank_transfer_handle {| accountNumber := map_index details "accountNumber";
                                   routingNumber := map_index details "routingNumber" |}),
     None)
  else
    (None, Some {| Error := "unknown payment type: " ++ paymentType |}).

(** *** Vocabulary for statements about the factory *)

(** The closed set of known discriminants. *)
Definition known (tag : PaymentType) : Prop :=
  In tag [CreditCard; PayPal; BankTransfer].

(** The text [msg] contains [tag]. *)
Definition names (msg tag : string) : Prop :=
  exists before after, msg = before ++ tag ++ after.

(** The key [k] is absent from the map (always so for the nil map). *)
Definition missing (details : string_map) (k : string) : Prop :=
  match details with
  | nil_map => True
  | make_map m => m !! k = None
  end.

(** The map literals of the demonstration. *)
Definition demo_bank_details : string_map :=
  make_map (<["routingNumber" := "123456789"]> (<["accountNumber" := "987654321"]> ∅)).

Definition demo_card_details : string_map :=
  make_map (<["cvv" := "123"]> (<["cardNumber" := "1234567890123456"]> ∅)).

(** The one key of the details map whose value [Process] prints, for each
    known discriminant. *)
Definition printed_key (tag : PaymentType) : string :=
  if String.eqb tag CreditCard then "cardNumber"
  else if String.eqb tag PayPal then "email"
  else "accountNumber".

End factory.

(** ** Package singleton *)

Module singleton.
Import golang.

Record DatabaseConnection : Type := {
  connectionString : string;
  isConnected : bool;
  connectionID : Z
}.

Inductive conn_ptr : Type :=
| nil_conn
| conn_at (n : nat).

(** Modelled from the spec: [sync.Once] belongs to Go's standard library and
    is not part of the repository. It is the tri-state gate of the
    specification (Uninitialized, InProgress, Completed): the first caller of
    [Do] moves the gate from Uninitialized to InProgress and runs the
    function; a caller that finds the gate InProgress waits; when the function
    has returned the gate becomes Completed and every caller of [Do], waiting
    or later, returns without running anything. *)
Inductive once_state : Type :=
| Uninitialized
| InProgress
| Completed.

(** The package-level variables [instance], [once] and [connID], the
    connections allocated so far, and standard output. [initCalls] is not a
    variable of the program: it counts how many times the function passed to
    [once.Do] has been entered. *)
Record globals : Type := {
  instance : conn_ptr;
  once : once_state;
  connID : Z;
  heap : list DatabaseConnection;
  stdout : list print_event;
  initCalls : nat
}.

(** The state of the package when the program starts: every variable holds
    its zero value. *)
Definition start : globals :=
  {| instance := nil_conn; once := Uninitialized; connID := 0;
     heap := []; stdout := []; initCalls := 0 |}.

(** Wrap-around of a 64-bit [int]. *)
Definition wrap_int (z : Z) : Z := (z + 2 ^ 63) mod 2 ^ 64 - 2 ^ 63.

Definition set_once (o : once_state) (g : globals) : globals :=
  {| instance := instance g; once := o; connID := connID g;
     heap := heap g; stdout := stdout g; initCalls := initCalls g |}.

Definition count_init (g : globals) : globals :=
  {| instance := instance g; once := once g; connID := connID g;
     heap := heap g; stdout := stdout g; initCalls := S (initCalls g) |}.

Definition print (e : print_event) (g : globals) : globals :=
  {| instance := instance g; once := once g; connID := connID g;
     heap := heap g; stdout := (stdout g ++ [e])%list; initCalls := initCalls g |}.

Definition set_heap (hp : list DatabaseConnection) (g : globals) : globals :=
  {| instance := instance g; once := once g; connID := connID g;
     heap := hp; stdout := stdout g; initCalls := initCalls g |}.

(** *** The function literal passed to [once.Do], statement by statement *)

(** [connID++] *)
Definition closure_increment (g : globals) : globals :=
  {| instance := instance g; once := once g; connID := wrap_int (connID g + 1);
     heap := heap g; stdout := stdout g; initCalls := initCalls g |}.

(** [instance = &DatabaseConnection{...}] *)
Definition closure_assign (g : globals) : globals :=
  {| instance := conn_at (length (heap g));
     once := once g;
     connID := connID g;
     heap := (heap g ++ [{| connectionString := "postgresql://localhost:5432/mydb";
                            isConnected := false;
                            connectionID := connID g |}])%list;
     stdout := stdout g;
     initCalls := initCalls g |}.

(** [fmt.Printf("Database connection instance created (ID: %d)\n", connID)] *)
Definition closure_print (g : globals) : globals :=
  print (Printf "Database connection instance created (ID: %d)\n" [arg_int (connID g)]) g.

Definition closure (g : globals) : globals :=
  closure_print (closure_assign (closure_increment g)).

(** *** One caller at a time *)

(** [once.Do(f)] when no other goroutine is inside [Do]. A call made while
    the gate is InProgress can only come from inside [f] and never returns. *)
Definition once_Do (f : globals -> globals) (g : globals) : option globals :=
  match once g with
  | Uninitialized => Some (set_once Completed (f (count_init (set_once InProgress g))))
  | InProgress => None
  | Completed => Some g
  end.

Definition GetInstance (g : globals) : option (conn_ptr * globals) :=
  g' ← once_Do closure g; Some (instance g', g').

(** The methods of [*DatabaseConnection]. A nil or dangling receiver makes
    the first field access panic. *)
Inductive outcome (A : Type) : Type :=
| Returned (a : A) (g : globals)
| Panicked (p : panic).
Arguments Returned {A} a g.
Arguments Panicked {A} p.

Definition deref (db : conn_ptr) (g : globals) : option (nat * DatabaseConnection) :=
  match db with
  | nil_conn => None
  | conn_at n => c ← heap g !! n; Some (n, c)
  end.

Definition set_isConnected (v : bool) (c : DatabaseConnection) : DatabaseConnection :=
  {| connectionString := connectionString c; isConnected := v;
     connectionID := connectionID c |}.

Definition Connect (db : conn_ptr) (g : globals) : outcome unit :=
  match deref db g with
  | None => Panicked NilDereference
  | Some (n, c) =>
      if negb (isConnected c)
      then Returned tt
             (print (Printf "Connected to database (ID: %d)\n" [arg_int (connectionID c)])
                    (set_heap (<[n := set_isConnected true c]> (heap g)) g))
      else Returned tt
             (print (Printf "Already connected to database (ID: %d)\n"
                            [arg_int (connectionID c)]) g)
  end.

Definition Disconnect (db : conn_ptr) (g : globals) : outcome unit :=
  match deref db g with
  | None => Panicked NilDereference
  | Some (n, c) =>
      if isConnected c
      then Returned tt
             (print (Printf "Disconnected from database (ID: %d)\n"
                            [arg_int (connectionID c)])
                    (set_heap (<[n := set_isConnected false c]> (heap g)) g))
      else Returned tt g
  end.

Definition Query (db : conn_ptr) (sql : string) (g : globals) : outcome unit :=
  match deref db g with
  | None => Panicked NilDereference
  | Some (n, c) =>
      if negb (isConnected c)
      then Returned tt
             (print (Printf "Error: Not connected to database. Call Connect() first.\n" []) g)
      else Returned tt
             (print (Printf "Executing query: %s (Connection ID: %d)\n"
                            [arg_string sql; arg_int (connectionID c)]) g)
  end.

Definition GetConnectionID (db : conn_ptr) (g : globals) : outcome Z :=
  match deref db g with
  | None => Panicked NilDereference
  | Some (n, c) => Returned (connectionID c) g
  end.

Definition GetConnectionString (db : conn_ptr) (g : globals) : outcome string :=
  match deref db g with
  | None => Panicked NilDereference
  | Some (n, c) => Returned (connectionString c) g
  end.

(** A call of an exported function or method of the package, and a
    sequential program as a list of calls. [run] gives the state after the
    calls and the pointers the calls of [GetInstance] returned, or [None]
    when a call panics or never returns. *)
Inductive call : Type :=
| CallGetInstance
| CallConnect (db : conn_ptr)
| CallDisconnect (db : conn_ptr)
| CallQuery (db : conn_ptr) (sql : string)
| CallGetConnectionID (db : conn_ptr)
| CallGetConnectionString (db : conn_ptr).

Definition state_of {A} (o : outcome A) : option globals :=
  match o with
  | Returned _ g => Some g
  | Panicked _ => None
  end.

Definition run_call (c : call) (g : globals) : option (list conn_ptr * globals) :=
  match c with
  | CallGetInstance => '(p, g') ← GetInstance g; Some ([p], g')
  | CallConnect db => g' ← state_of (Connect db g); Some ([], g')
  | CallDisconnect db => g' ← state_of (Disconnect db g); Some ([], g')
  | CallQuery db sql => g' ← state_of (Query db sql g); Some ([], g')
  | CallGetConnectionID db => g' ← state_of (GetConnectionID db g); Some ([], g')
  | CallGetConnectionString db => g' ← state_of (GetConnectionString db g); Some ([], g')
  end.

Fixpoint run (calls : list call) (g : globals) : option (list conn_ptr * globals) :=
  match calls with
  | [] => Some ([], g)
  | c :: rest =>
      '(ps, g1) ← run_call c g;
      '(qs, g2) ← run rest g1;
      Some ((ps ++ qs)%list, g2)
  end.

(** *** Goroutines calling [GetInstance] concurrently

    Each goroutine executes [GetInstance] one atomic step at a time; steps of
    different goroutines interleave in any order. Interleaving is a sound
    model here because every access to [instance] and [connID] is ordered by
    the gate: writes happen inside the function run by [Do], reads after [Do]
    has returned. *)

(** Where a goroutine is inside [GetInstance]. *)
Inductive pc : Type :=
| at_Do
| at_increment
| at_assign
| at_print
| at_closure_exit
| at_return
| returned (r : conn_ptr).

Record system : Type := {
  shared : globals;
  goroutines : list pc
}.

(** The step goroutine [t] takes next, if it can take one: a goroutine that
    has returned takes none, and neither does one waiting at a gate that is
    InProgress. *)
Definition step_of (p : pc) (g : globals) : option (pc * globals) :=
  match p with
  | at_Do =>
      match once g with
      | Uninitialized => Some (at_increment, count_init (set_once InProgress g))
      | InProgress => None
      | Completed => Some (at_return, g)
      end
  | at_increment => Some (at_assign, closure_increment g)
  | at_assign => Some (at_print, closure_assign g)
  | at_print => Some (at_closure_exit, closure_print g)
  | at_closure_exit => Some (at_return, set_once Completed g)
  | at_return => Some (returned (instance g), g)
  | returned _ => None
  end.

Definition step_thread (t : nat) (s : system) : option system :=
  p ← goroutines s !! t;
  '(p', g') ← step_of p (shared s);
  Some {| shared := g'; goroutines := <[t := p']> (goroutines s) |}.

Definition step (s s' : system) : Prop :=
  exists t, step_thread t s = Some s'.

(** [n] goroutines about to call [GetInstance] for the first time. *)
Definition initial (n : nat) : system :=
  {| shared := start; goroutines := replicate n at_Do |}.

(** Running a schedule: the goroutines named take one step each, in order;
    naming a goroutine that cannot step changes nothing. *)
Definition exec (schedule : list nat) (s : system) : system :=
  fold_left (fun s t => default s (step_thread t s)) schedule s.

Definition has_returned (p : pc) : bool :=
  match p with
  | returned _ => true
  | _ => false
  end.

(** Every goroutine has returned from [GetInstance]. *)
Definition all_returned (s : system) : Prop :=
  Forall (fun p => has_returned p = true) (goroutines s).

(** Steps a goroutine still has to take, at most. *)
Definition remaining (p : pc) : nat :=
  match p with
  | at_Do => 6
  | at_increment => 5
  | at_assign => 4
  | at_print => 3
  | at_closure_exit => 2
  | at_return => 1
  | returned _ => 0
  end.

Definition remaining_steps (s : system) : nat :=
  sum_list (remaining <$> goroutines s).

(** The one connection the package ever creates. *)
Definition the_connection : DatabaseConnection :=
  {| connectionString := "postgresql://localhost:5432/mydb";
     isConnected := false;
     connectionID := 1 |}.

(** *** The states an execution can be in

    The package state when the initializing goroutine has just entered the
    function, and when [once.Do] has completed. *)
Definition entered : globals := count_init (set_once InProgress start).

Definition finished : globals := set_once Completed (closure entered).

(** The package state while the initializing goroutine is at [p]. *)
Definition state_before (p : pc) : option globals :=
  match p with
  | at_increment => Some entered
  | at_assign => Some (closure_increment entered)
  | at_print => Some (closure_assign (closure_increment entered))
  | at_closure_exit => Some (closure entered)
  | _ => None
  end.

(** The package state is [g] for good: every goroutine is at the gate, past
    it, or has returned the instance of [g]. *)
Definition settled (g : globals) (s : system) : Prop :=
  shared s = g /\
  forall t p, goroutines s !! t = Some p ->
    p = at_Do \/ p = at_return \/ p = returned (instance g).

(** Invariant of the executions of [n] goroutines: before initialization
    everybody is at the gate; during it exactly one goroutine is inside the
    function and everybody else is still at the gate; after it the package
    state is [finished] and each goroutine is at the gate, past it, or has
    returned the one instance. *)
Definition invariant (n : nat) (s : system) : Prop :=
  length (goroutines s) = n /\
  match once (shared s) with
  | Uninitialized =>
      shared s = start /\
      forall t p, goroutines s !! t = Some p -> p = at_Do
  | InProgress =>
      exists t p,
        goroutines s !! t = Some p /\
        state_before p = Some (shared s) /\
        forall t' p', t' <> t -> goroutines s !! t' = Some p' -> p' = at_Do
  | Completed => settled finished s
  end.

(** What no exported function or method changes once the gate is Completed:
    the gate, [instance], [connID], the number of initializer runs and the
    number of connections ever allocated. *)
Definition same_registry (g g' : globals) : Prop :=
  once g' = once g /\ instance g' = instance g /\ connID g' = connID g /\
  initCalls g' = initCalls g /\ length (heap g') = length (heap g).

(** *** Vocabulary for statements about connections and goroutines *)

(** The goroutine is executing the function passed to [once.Do]. *)
Definition inside_closure (p : pc) : bool :=
  match p with
  | at_increment | at_assign | at_print | at_closure_exit => true
  | _ => false
  end.

(** The goroutine has come back from [once.Do]. *)
Definition past_gate (p : pc) : bool :=
  match p with
  | at_return | returned _ => true
  | _ => false
  end.

(** Two connections with the same identity: ID and connection string (the
    fields no method writes). *)
Definition same_identity (c c' : DatabaseConnection) : Prop :=
  connectionID c' = connectionID c /\ connectionString c' = connectionString c.

(** The package state before any call of [GetInstance]: the package
    variables hold their zero values. The heap holds the [k] connections the
    client has allocated itself ([DatabaseConnection] is an exported type, so
    [new(singleton.DatabaseConnection)] is open to every client). *)
Definition untouched (k : nat) (g : globals) : Prop :=
  once g = Uninitialized /\ instance g = nil_conn /\ connID g = 0 /\
  initCalls g = 0%nat /\ length (heap g) = k.

(** The package state after a call of [GetInstance], with [k] connections
    of the client's own: the package has allocated one more, at address [k]. *)
Definition initialized (k : nat) (g : globals) : Prop :=
  once g = Completed /\ instance g = conn_at k /\ connID g = 1 /\
  initCalls g = 1%nat /\ length (heap g) = S k /\
  exists c, heap g !! k = Some c /\ same_identity the_connection c.

(** The zero value of [DatabaseConnection], what [new] allocates. *)
Definition zero_connection : DatabaseConnection :=
  {| connectionString := ""; isConnected := false; connectionID := 0 |}.

(** The receiver of a method call. *)
Definition receiver (c : call) : option conn_ptr :=
  match c with
  | CallGetInstance => None
  | CallConnect db | CallDisconnect db | CallQuery db _
  | CallGetConnectionID db | CallGetConnectionString db => Some db
  end.

End singleton.

(** * Properties of package builder *)

Section builder_properties.
Import golang builder.

Lemma validLogLevels_spec (level : string) :
  bool_map_index Method.validLogLevels level = true <->
  In level ["debug"; "info"; "warn"; "error"].
Proof.
  unfold bool_map_index, Method.validLogLevels.
  rewrite !lookup_insert, lookup_empty.
  repeat case_decide; subst; simpl; split; intros; try tauto; try congruence.
Qed.

(** The three validation checks of [Build], as booleans. *)
Lemma host_check (c : ServerConfig) :
  String.eqb (Host c) "" = true <-> host_omitted c.
Proof. unfold host_omitted. apply String.eqb_eq. Qed.

Lemma port_check (c : ServerConfig) :
  (Port c <=? 0) || (Port c >? 65535) = true <-> port_out_of_range c.
Proof. unfold port_out_of_range. rewrite orb_true_iff, Z.leb_le, Z.gtb_gt. lia. Qed.

Lemma log_level_check (c : ServerConfig) :
  negb (bool_map_index Method.validLogLevels (LogLevel c)) = true <->
  log_level_unknown c.
Proof.
  unfold log_level_unknown. rewrite <- validLogLevels_spec.
  destruct (bool_map_index _ _); simpl; split; intros; congruence.
Qed.

(** [Build] on a live builder, one equation per path through the function. *)
Lemma Build_unfold (h : heap) (n : nat) (bld : ServerConfigBuilder) :
  builders h !! n = Some bld ->
  Method.Build (builder_at n) h =
    let c := config bld in
    if String.eqb (Host c) ""
    then Returned (nil_config, Some {| Field := "Host"; Message := "host is required" |}) h
    else if (Port c <=? 0) || (Port c >? 65535)
    then Returned (nil_config,
                   Some {| Field := "Port";
                           Message := "port must be between 1 and 65535" |}) h
    else if negb (bool_map_index Method.validLogLevels (LogLevel c))
    then Returned (nil_config,
                   Some {| Field := "LogLevel";
                           Message := "log level must be one of: debug, info, warn, error" |}) h
    else Returned (config_at (length (configs h)), None)
                  {| builders := builders h; configs := (configs h ++ [c])%list |}.
Proof.
  intros Hb. unfold Method.Build, mbind, M_bind, bind, load_staged. rewrite Hb. simpl.
  destruct (String.eqb _ _); [reflexivity|].
  destruct (_ || _); [reflexivity|].
  destruct (negb _); reflexivity.
Qed.

(** A setter on a live builder returns its receiver and replaces the staged
    configuration by the result of its one assignment. *)
Lemma call_setter_unfold (s : setter_call) (h : heap) (n : nat)
    (bld : ServerConfigBuilder) :
  builders h !! n = Some bld ->
  call_setter s (builder_at n) h =
    Returned (builder_at n)
             {| builders := <[n := {| config := assignment s (config bld) |}]> (builders h);
                configs := configs h |}.
Proof.
  intros Hb.
  destruct s; simpl;
    unfold Method.Host, Method.Port, Method.EnableSSL, Method.Timeout,
      Method.MaxConnections, Method.ReadTimeout, Method.WriteTimeout,
      Method.DatabaseURL, Method.EnableCache, Method.LogLevel,
      mbind, M_bind, bind, load_staged, store_staged; rewrite Hb; simpl;
      rewrite Hb; reflexivity.
Qed.

Lemma assignment_target (s : setter_call) (c : ServerConfig) :
  get_field (target s) (assignment s c) = argument s.
Proof. destruct s; reflexivity. Qed.

Lemma assignment_frame (s : setter_call) (f : field) (c : ServerConfig) :
  f <> target s -> get_field f (assignment s c) = get_field f c.
Proof. destruct s, f; simpl; intros; congruence. Qed.

(** A chain of setters on a live builder returns the receiver, leaves the
    staged configuration as the successive assignments make it, and never
    touches any other object. *)
Lemma chain_unfold (calls : list setter_call) :
  forall (h : heap) (n : nat) (bld : ServerConfigBuilder),
  builders h !! n = Some bld ->
  chain calls (builder_at n) h =
    Returned (builder_at n)
             {| builders := <[n := {| config := staged_after calls (config bld) |}]> (builders h);
                configs := configs h |}.
Proof.
  induction calls as [|s rest IH]; intros h n bld Hb.
  - simpl. unfold mret, M_ret, ret. f_equal. destruct h as [bs cs]; simpl in *.
    f_equal. symmetry. apply list_insert_id. destruct bld; exact Hb.
  - simpl. unfold mbind, M_bind, bind. rewrite (call_setter_unfold s h n bld Hb).
    rewrite (IH _ n {| config := assignment s (config bld) |}).
    + unfold staged_after. simpl. rewrite list_insert_insert_eq. reflexivity.
    + simpl. apply list_lookup_insert_eq. eapply lookup_lt_Some; eauto.
Qed.

Lemma NewServerConfigBuilder_unfold (h : heap) :
  NewServerConfigBuilder h =
    Returned (builder_at (length (builders h)))
             {| builders := (builders h ++ [{| config := default_config |}])%list;
                configs := configs h |}.
Proof. reflexivity. Qed.

Lemma build_with_unfold (calls : list setter_call) (h : heap) :
  build_with calls h =
    Method.Build (builder_at (length (builders h)))
      {| builders := (builders h ++ [{| config := staged_after calls default_config |}])%list;
         configs := configs h |}.
Proof.
  unfold build_with, mbind, M_bind, bind. rewrite NewServerConfigBuilder_unfold.
  rewrite (chain_unfold calls _ (length (builders h)) {| config := default_config |}).
  - simpl. replace (length (builders h)) with (length (builders h) + 0)%nat at 2 by lia.
    rewrite insert_app_r. reflexivity.
  - simpl. apply list_lookup_middle. reflexivity.
Qed.

(** C5: [NewServerConfigBuilder().Host("localhost").Port(8080).Build()]
    succeeds, whatever the heap it runs in, and the configuration it returns
    has SSL disabled, a timeout of 30 seconds, at most 100 connections and log
    level "info" (and the host and port that were set). *)
Theorem Build_minimal_config_has_defaults (h : heap) :
  exists (p : config_ptr) (h' : heap) (c : ServerConfig),
    build_with [CallHost "localhost"; CallPort 8080] h = Returned (p, None) h' /\
    p <> nil_config /\
    load_config p h' = Some c /\
    Host c = "localhost" /\ Port c = 8080 /\
    SSL c = false /\ Timeout c = 30 * Second /\
    MaxConnections c = 100 /\ LogLevel c = "info".
Proof.
  rewrite build_with_unfold.
  erewrite Build_unfold by (simpl; apply list_lookup_middle; reflexivity).
  simpl. eexists _, _, _. split; [reflexivity|]. split; [discriminate|].
  split; [simpl; apply list_lookup_middle; reflexivity|].
  repeat split.
Qed.

(** C4, as amended: [Build] reports the first check that fails, in the
    order Host, Port, LogLevel. On every live builder it fails naming "Host"
    when the host is empty; naming "Port" when the host is set and the port is
    outside 1..65535; naming "LogLevel" when host and port are valid and the
    level is not one of debug, info, warn, error; and it succeeds, returning a
    copy of the staged configuration, when all three are valid. The three
    failing chains of the demonstration (host "localhost" with port 99999; no
    host; host "localhost", port 8080 and level "invalid") name Port, Host
    and LogLevel. *)
Theorem Build_names_first_offending_field (h : heap) (n : nat)
    (bld : ServerConfigBuilder) (Hlive : builders h !! n = Some bld) :
  let c := config bld in
  let build := Method.Build (builder_at n) in
  (host_omitted c -> fails_naming "Host" build h) /\
  (~ host_omitted c -> port_out_of_range c -> fails_naming "Port" build h) /\
  (~ host_omitted c -> ~ port_out_of_range c -> log_level_unknown c ->
     fails_naming "LogLevel" build h) /\
  (~ host_omitted c -> ~ port_out_of_range c -> ~ log_level_unknown c ->
     succeeds_with c build h) /\
  fails_naming "Port" (build_with [CallHost "localhost"; CallPort 99999]) h /\
  fails_naming "Host" (build_with [CallPort 8080]) h /\
  fails_naming "LogLevel"
    (build_with [CallHost "localhost"; CallPort 8080; CallLogLevel "invalid"]) h.
Proof.
  intros c build. subst build. unfold fails_naming, succeeds_with.
  rewrite (Build_unfold h n bld Hlive). fold c. cbv zeta.
  pose proof (host_check c) as Hh. pose proof (port_check c) as Hp.
  pose proof (log_level_check c) as Hl.
  destruct (String.eqb (Host c) "");
    [|destruct ((Port c <=? 0) || (Port c >? 65535));
      [|destruct (negb (bool_map_index Method.validLogLevels (LogLevel c)))]].
  all: repeat split; intros;
    try (exfalso; intuition congruence);
    try (eexists _, _; reflexivity);
    try (rewrite build_with_unfold;
         erewrite Build_unfold by (simpl; apply list_lookup_middle; reflexivity);
         simpl; eexists _, _; reflexivity).
  eexists _, _. split; [reflexivity|]. simpl. apply list_lookup_middle. reflexivity.
Qed.

(** The claim as first stated would have [Build] name "Port" whenever the
    port is out of range. [NewServerConfigBuilder().Port(99999).Build()] has
    such a port, and [Build] names "Host": the host check comes first. *)
Lemma Build_port_99999_without_host_names_Host :
  let staged := staged_after [CallPort 99999] default_config in
  let build := build_with [CallPort 99999] in
  port_out_of_range staged /\
  fails_naming "Host" build empty_heap /\
  ~ fails_naming "Port" build empty_heap.
Proof.
  cbv zeta. split; [|split].
  - unfold port_out_of_range. simpl. lia.
  - eexists _, _. vm_compute. reflexivity.
  - intros (msg & h' & H). vm_compute in H. discriminate H.
Qed.

Lemma Build_names_first_offending_field_witness :
  let h := {| builders := [{| config := with_Host "example.org" default_config |}];
              configs := [] |} in
  succeeds_with (with_Host "example.org" default_config)
                (Method.Build (builder_at 0)) h.
Proof.
  cbv zeta.
  refine (proj1 (proj2 (proj2 (proj2
    (Build_names_first_offending_field
       {| builders := [{| config := with_Host "example.org" default_config |}];
          configs := [] |}
       0%nat {| config := with_Host "example.org" default_config |} eq_refl)))) _ _ _).
  - unfold host_omitted. simpl. discriminate.
  - unfold port_out_of_range. simpl. lia.
  - unfold log_level_unknown. simpl. intros H. apply H. right. left. reflexivity.
Defined.

(** [get_field] observes every field: configurations that agree on all ten
    are equal. *)
Lemma get_field_ext (c1 c2 : ServerConfig) :
  (forall f, get_field f c1 = get_field f c2) -> c1 = c2.
Proof.
  intros H. destruct c1, c2.
  pose proof (H FHost); pose proof (H FPort); pose proof (H FSSL);
    pose proof (H FTimeout); pose proof (H FMaxConnections);
    pose proof (H FReadTimeout); pose proof (H FWriteTimeout);
    pose proof (H FDatabaseURL); pose proof (H FCacheEnabled);
    pose proof (H FLogLevel).
  simpl in *. congruence.
Qed.

(** C7: each of the ten fluent setters, called on a live builder, returns
    the very pointer it was called on; afterwards the staged configuration
    holds the argument in the setter's own field and the old value in each of
    the nine others, and no other builder and no finished configuration has
    changed. *)
Theorem setter_returns_receiver_and_writes_own_field (s : setter_call) (h : heap)
    (n : nat) (bld : ServerConfigBuilder) (Hlive : builders h !! n = Some bld) :
  exists (h' : heap) (bld' : ServerConfigBuilder),
    call_setter s (builder_at n) h = Returned (builder_at n) h' /\
    builders h' !! n = Some bld' /\
    get_field (target s) (config bld') = argument s /\
    (forall f, f <> target s -> get_field f (config bld') = get_field f (config bld)) /\
    (forall m, m <> n -> builders h' !! m = builders h !! m) /\
    length (builders h') = length (builders h) /\
    configs h' = configs h.
Proof.
  eexists _, _. split; [apply call_setter_unfold; exact Hlive|]. simpl.
  split; [apply list_lookup_insert_eq; eapply lookup_lt_Some; exact Hlive|].
  simpl. split; [apply assignment_target|].
  split; [intros f Hf; apply assignment_frame; exact Hf|].
  split; [intros m Hm; apply list_lookup_insert_ne; congruence|].
  split; [apply length_insert|reflexivity].
Qed.

Lemma setter_returns_receiver_and_writes_own_field_witness :
  exists (h' : heap) (bld' : ServerConfigBuilder),
    call_setter (CallPort 443) (builder_at 0)
      {| builders := [{| config := default_config |}]; configs := [] |}
      = Returned (builder_at 0) h' /\
    builders h' !! 0%nat = Some bld' /\
    get_field FPort (config bld') = VInt 443 /\
    (forall f, f <> FPort -> get_field f (config bld') = get_field f default_config) /\
    (forall m, m <> 0%nat ->
       builders h' !! m = [{| config := default_config |}] !! m) /\
    length (builders h') = 1%nat /\
    configs h' = [].
Proof.
  exact (setter_returns_receiver_and_writes_own_field (CallPort 443)
           {| builders := [{| config := default_config |}]; configs := [] |}
           0%nat {| config := default_config |} eq_refl).
Defined.

(** C8: when [Build] succeeds on a live builder, the pointer it returns is
    not nil, was not allocated before the call, and is not the address of
    the [config] field of any builder; it points to a copy of the staged
    configuration, and [Build] itself leaves every builder and every older
    configuration as it was. Whatever chain of setters is then called on the
    same builder, the chain returns, the builder's staged configuration
    follows the assignments, and the built configuration still reads as it
    did when it was built. *)
Theorem Build_returns_fresh_copy (h : heap) (n : nat) (bld : ServerConfigBuilder)
    (p : config_ptr) (h1 : heap)
    (Hlive : builders h !! n = Some bld)
    (Hbuild : Method.Build (builder_at n) h = Returned (p, None) h1) :
  p <> nil_config /\
  load_config p h = None /\
  (forall m, p <> config_field_of m) /\
  load_config p h1 = Some (config bld) /\
  builders h1 = builders h /\
  (forall q c, load_config q h = Some c -> load_config q h1 = Some c) /\
  (forall calls : list setter_call,
     exists h2,
       chain calls (builder_at n) h1 = Returned (builder_at n) h2 /\
       load_config (config_field_of n) h2 = Some (staged_after calls (config bld)) /\
       load_config p h2 = Some (config bld)).
Proof.
  rewrite (Build_unfold h n bld Hlive) in Hbuild. cbv zeta in Hbuild.
  destruct (String.eqb _ _); [discriminate|].
  destruct (_ || _); [discriminate|].
  destruct (negb _); [discriminate|].
  injection Hbuild as <- <-. simpl.
  split; [discriminate|].
  split; [apply lookup_ge_None; lia|].
  split; [discriminate|].
  split; [apply list_lookup_middle; reflexivity|].
  split; [reflexivity|].
  split.
  - intros [|m|m] c; simpl; intros Hq; try assumption.
    rewrite lookup_app_l; [assumption|]. eapply lookup_lt_Some; eassumption.
  - intros calls. eexists. split.
    + apply (chain_unfold calls _ n bld). exact Hlive.
    + simpl. split.
      * rewrite list_lookup_insert_eq; [reflexivity|]. eapply lookup_lt_Some; eassumption.
      * apply list_lookup_middle. reflexivity.
Qed.

Lemma Build_returns_fresh_copy_witness :
  let c := with_Host "localhost" default_config in
  let calls := [CallHost "example.org"; CallPort 443; CallEnableSSL true] in
  exists h2,
    chain calls (builder_at 0) {| builders := [{| config := c |}]; configs := [c] |}
      = Returned (builder_at 0) h2 /\
    load_config (config_field_of 0) h2 = Some (staged_after calls c) /\
    load_config (config_at 0) h2 = Some c.
Proof.
  exact (proj2 (proj2 (proj2 (proj2 (proj2 (proj2
    (Build_returns_fresh_copy
       {| builders := [{| config := with_Host "localhost" default_config |}];
          configs := [] |}
       0%nat {| config := with_Host "localhost" default_config |}
       (config_at 0)
       {| builders := [{| config := with_Host "localhost" default_config |}];
          configs := [with_Host "localhost" default_config] |}
       eq_refl eq_refl))))))
    [CallHost "example.org"; CallPort 443; CallEnableSSL true]).
Defined.

End builder_properties.

(** * Properties of package factory *)

Section factory_properties.
Import golang factory.

Lemma known_iff (tag : PaymentType) :
  known tag <-> tag = "credit" \/ tag = "paypal" \/ tag = "bank".
Proof.
  unfold known, CreditCard, PayPal, BankTransfer. simpl.
  intuition congruence.
Qed.

(** The factory, one equation per case of the [switch]. *)
Lemma CreatePaymentProcessor_unknown (tag : PaymentType) (details : string_map) :
  ~ known tag ->
  CreatePaymentProcessor tag details =
    (None, Some {| Error := "unknown payment type: " ++ tag |}).
Proof.
  rewrite known_iff. intros Hk. unfold CreatePaymentProcessor, CreditCard, PayPal, BankTransfer.
  destruct (String.eqb_spec tag "credit"); [tauto|].
  destruct (String.eqb_spec tag "paypal"); [tauto|].
  destruct (String.eqb_spec tag "bank"); [tauto|].
  reflexivity.
Qed.

Lemma CreatePaymentProcessor_known (tag : PaymentType) (details : string_map) :
  known tag ->
  exists p, CreatePaymentProcessor tag details = (Some p, None).
Proof.
  rewrite known_iff. intros [-> | [-> | ->]]; eexists; reflexivity.
Qed.

Lemma append_empty_r (s : string) : s ++ "" = s.
Proof.
  induction s as [|a s IH]; [reflexivity|].
  change (String a (s ++ "") = String a s). f_equal. exact IH.
Qed.

Lemma names_suffix (before tag : string) : names (before ++ tag) tag.
Proof. exists before, "". rewrite append_empty_r. reflexivity. Qed.

(** C6: the factory called with the bank-transfer discriminant returns a
    handle whose [GetName()] is "Bank Transfer", for the account details of
    the demonstration and for any other map; with the discriminant "unknown"
    it returns no handle and an error whose message contains "unknown"; for
    every discriminant and map, it returns an error exactly when the
    discriminant is none of credit, paypal, bank, and that error's message is
    "unknown payment type: " followed by the discriminant, so it names it. *)
Theorem CreatePaymentProcessor_known_or_error_naming_tag :
  (exists p, CreatePaymentProcessor BankTransfer demo_bank_details = (Some p, None) /\
             GetName p = "Bank Transfer") /\
  (forall details, exists p,
     CreatePaymentProcessor BankTransfer details = (Some p, None) /\
     GetName p = "Bank Transfer") /\
  (forall details, exists e,
     CreatePaymentProcessor "unknown" details = (None, Some e) /\
     Error e = "unknown payment type: unknown" /\
     names (Error e) "unknown") /\
  (forall tag details,
     (exists e, snd (CreatePaymentProcessor tag details) = Some e) <-> ~ known tag) /\
  (forall tag details,
     (exists p, CreatePaymentProcessor tag details = (Some p, None)) <-> known tag) /\
  (forall tag details e,
     snd (CreatePaymentProcessor tag details) = Some e ->
     fst (CreatePaymentProcessor tag details) = None /\
     Error e = "unknown payment type: " ++ tag /\
     names (Error e) tag).
Proof.
  assert (Hdec : forall tag, known tag \/ ~ known tag).
  { intros tag. rewrite known_iff.
    destruct (string_dec tag "credit"), (string_dec tag "paypal"),
      (string_dec tag "bank"); tauto. }
  split; [eexists; split; reflexivity|].
  split; [intros details; eexists; split; reflexivity|].
  split.
  { intros details. eexists. split; [reflexivity|]. split; [reflexivity|].
    apply (names_suffix "unknown payment type: " "unknown"). }
  split.
  { intros tag details. split.
    - intros [e He] Hk. destruct (CreatePaymentProcessor_known tag details Hk) as [p Hp].
      rewrite Hp in He. discriminate.
    - intros Hk. rewrite (CreatePaymentProcessor_unknown tag details Hk). eexists; reflexivity. }
  split.
  { intros tag details. split.
    - intros [p Hp]. destruct (Hdec tag) as [Hk|Hk]; [exact Hk|].
      rewrite (CreatePaymentProcessor_unknown tag details Hk) in Hp. discriminate.
    - apply CreatePaymentProcessor_known. }
  intros tag details e He. destruct (Hdec tag) as [Hk|Hk].
  - destruct (CreatePaymentProcessor_known tag details Hk) as [p Hp].
    rewrite Hp in He. discriminate.
  - rewrite (CreatePaymentProcessor_unknown tag details Hk) in *. simpl in He.
    injection He as <-. simpl. split; [reflexivity|]. split; [reflexivity|].
    apply names_suffix.
Qed.

Lemma CreatePaymentProcessor_known_or_error_naming_tag_witness :
  fst (CreatePaymentProcessor "cash" nil_map) = None /\
  Error {| Error := "unknown payment type: cash" |} = "unknown payment type: " ++ "cash" /\
  names (Error {| Error := "unknown payment type: cash" |}) "cash".
Proof.
  exact (proj2 (proj2 (proj2 (proj2 (proj2
    CreatePaymentProcessor_known_or_error_naming_tag))))
    "cash" nil_map {| Error := "unknown payment type: cash" |} eq_refl).
Defined.

Lemma map_index_missing (details : string_map) (k : string) :
  missing details k -> map_index details k = "".
Proof. destruct details as [|m]; simpl; [reflexivity|]. intros ->. reflexivity. Qed.

(** Lengths and contents of [substring], for the slice expression. *)
Lemma substring_length (s : string) :
  forall n m : nat, (n + m <= String.length s)%nat ->
  String.length (substring n m s) = m.
Proof.
  induction s as [|a s IH]; intros [|n] [|m]; simpl; intros H; try lia; try reflexivity.
  - rewrite (IH 0%nat m) by lia. reflexivity.
  - apply (IH n 0%nat). lia.
  - apply IH. lia.
Qed.

Lemma substring_split (s : string) :
  forall n : nat, (n <= String.length s)%nat ->
  s = substring 0 n s ++ substring n (String.length s - n) s.
Proof.
  induction s as [|a s IH]; intros [|n]; simpl; intros H; try lia; try reflexivity.
  - change (String a s = String a (substring 0 (String.length s) s)).
    f_equal. specialize (IH 0%nat ltac:(lia)). simpl in IH.
    rewrite Nat.sub_0_r in IH. destruct s; exact IH.
  - change (String a s = String a (substring 0 n s ++ substring n (String.length s - n) s)).
    f_equal. apply IH. lia.
Qed.

Lemma slice_from_negative (s : string) (low : Z) :
  low < 0 -> slice_from s low = inl (SliceBoundsOutOfRange low).
Proof.
  intros H. unfold slice_from.
  destruct (Z.ltb_spec low 0); [reflexivity|lia].
Qed.

Lemma slice_from_in_range (s : string) (low : Z) :
  0 <= low <= Z.of_nat (String.length s) ->
  exists tail,
    slice_from s low = inr tail /\
    Z.of_nat (String.length tail) = Z.of_nat (String.length s) - low /\
    exists head, s = head ++ tail.
Proof.
  intros H. unfold slice_from.
  destruct (Z.ltb_spec low 0); [lia|].
  destruct (Z.ltb_spec (Z.of_nat (String.length s)) low); [lia|]. simpl.
  eexists. split; [reflexivity|]. split.
  - rewrite substring_length by lia. lia.
  - eexists. apply substring_split. lia.
Qed.

(** C9, as amended (bytes, not characters): the factory validates nothing,
    so with the credit discriminant it
    builds a processor around whatever [details["cardNumber"]] reads as; on
    that processor [Process] panics with a slice bound out of range
    ([len - 4], negative) whenever the card number has fewer than 4 bytes, in
    particular when the key is missing or the map is nil; and when the number
    has at least 4 bytes [Process] returns nil after printing the amount and
    the last four bytes. So [Process] is safe exactly from 4 bytes on. *)
Theorem CreditCard_Process_panics_below_four_bytes (details : string_map) (amount : float) :
  let number := map_index details "cardNumber" in
  let len := Z.of_nat (String.length number) in
  exists c,
    CreatePaymentProcessor CreditCard details = (Some (credit_card_handle c), None) /\
    cardNumber c = number /\
    (len < 4 ->
       Process (credit_card_handle c) amount = Panicked (SliceBoundsOutOfRange (len - 4))) /\
    (missing details "cardNumber" ->
       Process (credit_card_handle c) amount = Panicked (SliceBoundsOutOfRange (-4))) /\
    (4 <= len ->
       exists last4,
         Process (credit_card_handle c) amount =
           Returned [Printf "Processing $%.2f via Credit Card ending in %s\n"
                            [arg_float64 amount; arg_string last4]] None /\
         String.length last4 = 4%nat /\
         exists head, number = head ++ last4).
Proof.
  intros number len. eexists. split; [reflexivity|]. simpl. fold number. fold len.
  split; [reflexivity|]. split; [|split].
  - intros Hshort. rewrite slice_from_negative by lia. reflexivity.
  - intros Hmiss. subst len number. rewrite (map_index_missing _ _ Hmiss). reflexivity.
  - intros Hlong.
    destruct (slice_from_in_range number (len - 4)) as (tail & -> & Hlen & Hsplit);
      [subst len; lia|].
    exists tail. split; [reflexivity|]. split; [subst len; lia|exact Hsplit].
Qed.

Lemma CreditCard_Process_panics_below_four_bytes_witness :
  exists c,
    CreatePaymentProcessor CreditCard (make_map (<["cardNumber" := "123"]> ∅))
      = (Some (credit_card_handle c), None) /\
    Process (credit_card_handle c) 149.5%float = Panicked (SliceBoundsOutOfRange (-1)).
Proof.
  destruct (CreditCard_Process_panics_below_four_bytes
              (make_map (<["cardNumber" := "123"]> ∅)) 149.5%float)
    as (c & Hc & _ & Hshort & _).
  exists c. split; [exact Hc|]. apply Hshort. vm_compute. reflexivity.
Defined.

(** The claim as first stated counts characters. The card number of this
    map is three characters long, an e with acute accent (the two bytes 195,
    169) followed by "12", and four bytes long: [len - 4] is 0, the slice is
    in range, and [Process] returns after printing all four bytes. *)
Lemma CreditCard_Process_returns_on_three_characters :
  let number := String "195"%char (String "169"%char "12") in
  let details := make_map (<["cardNumber" := number]> ∅) in
  character_count (map_index details "cardNumber") = 3%nat /\
  String.length (map_index details "cardNumber") = 4%nat /\
  exists c,
    CreatePaymentProcessor CreditCard details = (Some (credit_card_handle c), None) /\
    Process (credit_card_handle c) 149.5%float =
      Returned [Printf "Processing $%.2f via Credit Card ending in %s\n"
                       [arg_float64 149.5%float; arg_string number]] None.
Proof.
  cbv zeta. split; [reflexivity|]. split; [reflexivity|].
  eexists. split; reflexivity.
Qed.

(** C10: for each of the three known discriminants the factory succeeds on
    every details map, the nil map included: it returns the processor of that
    kind and a nil error, each field read from its key, and the empty string
    wherever the key is missing. *)
Theorem CreatePaymentProcessor_requires_no_key (details : string_map) :
  (forall tag, known tag ->
     exists p, CreatePaymentProcessor tag details = (Some p, None)) /\
  (exists c,
     CreatePaymentProcessor CreditCard details = (Some (credit_card_handle c), None) /\
     cardNumber c = map_index details "cardNumber" /\
     cvv c = map_index details "cvv" /\
     (missing details "cardNumber" -> cardNumber c = "") /\
     (missing details "cvv" -> cvv c = "")) /\
  (exists p,
     CreatePaymentProcessor PayPal details = (Some (paypal_handle p), None) /\
     email p = map_index details "email" /\
     (missing details "email" -> email p = "")) /\
  (exists b,
     CreatePaymentProcessor BankTransfer details = (Some (bank_transfer_handle b), None) /\
     accountNumber b = map_index details "accountNumber" /\
     routingNumber b = map_index details "routingNumber" /\
     (missing details "accountNumber" -> accountNumber b = "") /\
     (missing details "routingNumber" -> routingNumber b = "")) /\
  CreatePaymentProcessor CreditCard nil_map =
    (Some (credit_card_handle {| cardNumber := ""; cvv := "" |}), None) /\
  CreatePaymentProcessor PayPal nil_map = (Some (paypal_handle {| email := "" |}), None) /\
  CreatePaymentProcessor BankTransfer nil_map =
    (Some (bank_transfer_handle {| accountNumber := ""; routingNumber := "" |}), None).
Proof.
  split; [intros tag; apply CreatePaymentProcessor_known|].
  split; [eexists; split; [reflexivity|]; simpl;
          repeat split; apply map_index_missing|].
  split; [eexists; split; [reflexivity|]; simpl;
          repeat split; apply map_index_missing|].
  split; [eexists; split; [reflexivity|]; simpl;
          repeat split; apply map_index_missing|].
  repeat split.
Qed.

Lemma CreatePaymentProcessor_requires_no_key_witness :
  exists p,
    CreatePaymentProcessor PayPal (make_map (<["cvv" := "123"]> ∅)) = (Some p, None).
Proof.
  apply (proj1 (CreatePaymentProcessor_requires_no_key (make_map (<["cvv" := "123"]> ∅)))).
  right. left. reflexivity.
Defined.

End factory_properties.

(** * Properties of package singleton *)

Section singleton_properties.
Import golang singleton.

Lemma finished_eq :
  finished =
    {| instance := conn_at 0; once := Completed; connID := 1;
       heap := [the_connection];
       stdout := [Printf "Database connection instance created (ID: %d)\n" [arg_int 1]];
       initCalls := 1 |}.
Proof. reflexivity. Qed.

Lemma invariant_initial (n : nat) : invariant n (initial n).
Proof.
  split; simpl.
  - apply length_replicate.
  - split; [reflexivity|]. intros t p H. apply lookup_replicate in H. tauto.
Qed.

(** Reading slot [t'] of a list whose slot [t] was just overwritten: either
    the new element ([t' = t]) or the old list's element. *)
Ltac lookup_updated H t' t Hlt :=
  let Hne := fresh "Hne" in
  destruct (decide (t' = t)) as [->|Hne];
  [ rewrite list_lookup_insert_eq in H by exact Hlt; injection H as <-
  | rewrite list_lookup_insert_ne in H by congruence ].

Lemma step_thread_inv (t : nat) (s s' : system) :
  step_thread t s = Some s' ->
  exists p p' g',
    goroutines s !! t = Some p /\
    step_of p (shared s) = Some (p', g') /\
    s' = {| shared := g'; goroutines := <[t := p']> (goroutines s) |}.
Proof.
  unfold step_thread. intros H.
  destruct (goroutines s !! t) as [p|] eqn:Hp; simpl in H; [|discriminate].
  destruct (step_of p (shared s)) as [[p' g']|] eqn:Hs; simpl in H; [|discriminate].
  injection H as <-. eauto 6.
Qed.

Lemma step_thread_intro (t : nat) (s : system) (p p' : pc) (g' : globals) :
  goroutines s !! t = Some p ->
  step_of p (shared s) = Some (p', g') ->
  step s {| shared := g'; goroutines := <[t := p']> (goroutines s) |}.
Proof.
  intros Hp Hs. exists t. unfold step_thread. rewrite Hp. simpl. rewrite Hs. reflexivity.
Qed.

(** Once the gate is Completed and nobody is inside the function, a step
    changes no variable of the package. *)
Lemma settled_step (g : globals) (s s' : system) :
  once g = Completed -> settled g s -> step s s' -> settled g s'.
Proof.
  intros Hon [Hg Hall] [t Hstep].
  apply step_thread_inv in Hstep as (p & p' & g' & Hp & Hs & ->).
  assert (Ht : (t < length (goroutines s))%nat) by (eapply lookup_lt_Some; eauto).
  rewrite Hg in Hs. unfold settled. simpl.
  destruct (Hall t p Hp) as [-> | [-> | ->]]; simpl in Hs.
  - rewrite Hon in Hs. injection Hs as <- <-. split; [reflexivity|].
    intros t' p'' Hl. lookup_updated Hl t' t Ht; eauto.
  - injection Hs as <- <-. split; [reflexivity|].
    intros t' p'' Hl. lookup_updated Hl t' t Ht; eauto.
  - discriminate.
Qed.

Lemma invariant_step (n : nat) (s s' : system) :
  invariant n s -> step s s' -> invariant n s'.
Proof.
  intros [Hlen Hinv] [t Hstep].
  apply step_thread_inv in Hstep as (p & p' & g' & Hp & Hs & ->).
  assert (Ht : (t < length (goroutines s))%nat) by (eapply lookup_lt_Some; eauto).
  split; [simpl; rewrite length_insert; exact Hlen|]. simpl.
  destruct (once (shared s)) eqn:Hon.
  - destruct Hinv as [Hg Hall]. rewrite (Hall t p Hp) in Hs. simpl in Hs.
    rewrite Hon in Hs. injection Hs as <- <-. rewrite Hg. simpl.
    exists t, at_increment. split; [apply list_lookup_insert_eq; exact Ht|].
    split; [reflexivity|].
    intros t' p'' Hne Hl. rewrite list_lookup_insert_ne in Hl by congruence. eauto.
  - destruct Hinv as (t0 & p0 & Hp0 & Hst & Hothers).
    destruct (decide (t = t0)) as [->|Hne].
    + rewrite Hp0 in Hp. injection Hp as <-.
      destruct p0; simpl in Hst; try discriminate; injection Hst as Hst;
        simpl in Hs; injection Hs as <- <-; rewrite <- Hst; simpl.
      1-3: eexists t0, _; (split; [apply list_lookup_insert_eq; exact Ht|]);
           (split; [reflexivity|]);
           intros t' p'' Hne Hl; rewrite list_lookup_insert_ne in Hl by congruence; eauto.
      split; [reflexivity|]. intros t' p'' Hl. simpl in Hl.
      lookup_updated Hl t' t0 Ht; [auto|left; eauto].
    + rewrite (Hothers t p Hne Hp) in Hs. simpl in Hs. rewrite Hon in Hs. discriminate.
  - assert (Hset : settled finished
                      {| shared := g'; goroutines := <[t := p']> (goroutines s) |}).
    { eapply settled_step; [reflexivity|exact Hinv|].
      eapply step_thread_intro; eassumption. }
    pose proof (proj1 Hset) as Hg'. simpl in Hg'. subst g'. exact Hset.
Qed.

Lemma invariant_reachable (n : nat) (s : system) :
  rtc step (initial n) s -> invariant n s.
Proof.
  revert s. apply rtc_ind_r.
  - apply invariant_initial.
  - intros y z _ Hstep Hy. exact (invariant_step n y z Hy Hstep).
Qed.

Lemma invariant_initCalls (n : nat) (s : system) :
  invariant n s -> (initCalls (shared s) <= 1)%nat.
Proof.
  intros [_ Hinv]. destruct (once (shared s)).
  - destruct Hinv as [-> _]. simpl. lia.
  - destruct Hinv as (t & p & _ & Hst & _).
    destruct p; simpl in Hst; try discriminate; injection Hst as <-; simpl; lia.
  - destruct Hinv as [-> _]. simpl. lia.
Qed.

Lemma invariant_all_returned (n : nat) (s : system) :
  (1 <= n)%nat -> invariant n s -> all_returned s ->
  shared s = finished /\
  forall t, (t < n)%nat -> goroutines s !! t = Some (returned (conn_at 0)).
Proof.
  intros Hn [Hlen Hinv] Hall. unfold all_returned in Hall.
  rewrite Forall_lookup in Hall.
  destruct (once (shared s)).
  - destruct Hinv as [_ Hdo].
    destruct (lookup_lt_is_Some_2 (goroutines s) 0%nat) as [p Hp]; [lia|].
    specialize (Hall _ _ Hp). rewrite (Hdo _ _ Hp) in Hall. discriminate.
  - destruct Hinv as (t & p & Hp & Hst & _). specialize (Hall _ _ Hp).
    destruct p; simpl in Hst, Hall; discriminate.
  - destruct Hinv as [Hg Hpcs]. split; [exact Hg|]. intros t Ht.
    destruct (lookup_lt_is_Some_2 (goroutines s) t) as [p Hp]; [lia|].
    specialize (Hall _ _ Hp).
    destruct (Hpcs _ _ Hp) as [-> | [-> | ->]]; try discriminate. exact Hp.
Qed.

(** No deadlock: as long as some goroutine has not returned, some goroutine
    can take a step. *)
Lemma invariant_progress (n : nat) (s : system) :
  (1 <= n)%nat -> invariant n s -> ~ all_returned s -> exists s', step s s'.
Proof.
  intros Hn [Hlen Hinv] Hnot.
  destruct (once (shared s)) eqn:Hon.
  - destruct Hinv as [_ Hdo].
    destruct (lookup_lt_is_Some_2 (goroutines s) 0%nat) as [p Hp]; [lia|].
    eexists. eapply step_thread_intro; [exact Hp|].
    rewrite (Hdo _ _ Hp). simpl. rewrite Hon. reflexivity.
  - destruct Hinv as (t & p & Hp & Hst & _).
    destruct p; simpl in Hst; try discriminate;
      eexists; (eapply step_thread_intro; [exact Hp|reflexivity]).
  - destruct Hinv as [_ Hpcs].
    apply not_Forall_Exists in Hnot; [|intros x; apply _].
    apply Exists_exists in Hnot as (p & Hin & Hp).
    apply list_elem_of_lookup in Hin as [t Ht].
    destruct (Hpcs _ _ Ht) as [-> | [-> | ->]].
    + eexists. eapply step_thread_intro; [exact Ht|]. simpl. rewrite Hon. reflexivity.
    + eexists. eapply step_thread_intro; [exact Ht|]. reflexivity.
    + contradiction Hp. reflexivity.
Qed.

Lemma step_of_remaining (p p' : pc) (g g' : globals) :
  step_of p g = Some (p', g') -> (remaining p' < remaining p)%nat.
Proof.
  destruct p; simpl; try destruct (once g); intros H;
    try discriminate; injection H as <- <-; simpl; lia.
Qed.

Lemma sum_list_insert (l : list pc) :
  forall (t : nat) (p p' : pc),
  l !! t = Some p ->
  (sum_list (remaining <$> <[t := p']> l) + remaining p =
   sum_list (remaining <$> l) + remaining p')%nat.
Proof.
  induction l as [|q l IH]; intros [|t] p p' H; simpl in *; try discriminate.
  - injection H as ->. lia.
  - specialize (IH t p p' H). unfold fmap in IH. lia.
Qed.

(** Every step uses up at least one of the remaining steps. *)
Lemma step_remaining (s s' : system) :
  step s s' -> (remaining_steps s' < remaining_steps s)%nat.
Proof.
  intros [t Hstep].
  apply step_thread_inv in Hstep as (p & p' & g' & Hp & Hs & ->).
  unfold remaining_steps. simpl.
  pose proof (sum_list_insert _ _ _ p' Hp).
  pose proof (step_of_remaining _ _ _ _ Hs). lia.
Qed.

Lemma remaining_steps_initial (n : nat) : remaining_steps (initial n) = (6 * n)%nat.
Proof.
  unfold remaining_steps. simpl. induction n as [|n IH]; [reflexivity|].
  simpl. unfold fmap in IH. lia.
Qed.

Lemma nsteps_remaining (k : nat) (s s' : system) :
  nsteps step k s s' -> (remaining_steps s' + k <= remaining_steps s)%nat.
Proof.
  induction 1 as [|k x y z Hxy _ IH]; [lia|].
  pose proof (step_remaining _ _ Hxy). lia.
Qed.

(** From any state of an execution the goroutines can all be run to their
    return. *)
Lemma invariant_completion (n : nat) :
  (1 <= n)%nat ->
  forall (k : nat) (s : system),
  (remaining_steps s <= k)%nat -> invariant n s ->
  exists s', rtc step s s' /\ all_returned s'.
Proof.
  intros Hn. induction k as [|k IH]; intros s Hk Hinv;
    (destruct (decide (all_returned s)) as [Hall|Hnot];
     [exists s; split; [apply rtc_refl|exact Hall]|]);
    destruct (invariant_progress n s Hn Hinv Hnot) as [s1 Hstep];
    pose proof (step_remaining _ _ Hstep) as Hlt.
  - lia.
  - destruct (IH s1) as (s' & Hrun & Hall); [lia|eapply invariant_step; eauto|].
    exists s'. split; [eapply rtc_l; eauto|exact Hall].
Qed.

(** C1: [n] goroutines ([n] at least 1) call [GetInstance] for the first
    time, their steps interleaved in any order. Throughout every execution
    the function passed to [once.Do] has been entered at most once. In every
    state where all goroutines have returned it has been entered exactly
    once ([connID] is 1 and the creation message was printed once), and all
    of them hold the same non-nil pointer, the value of [instance], which
    points to the one connection created (ID 1). Such a
    state is always reached: a goroutine that has not returned never blocks
    the whole system, every state of an execution can be run to completion,
    and no execution has more than [6 * n] steps. *)
Theorem GetInstance_concurrent_callers_share_one_instance (n : nat) (Hn : (1 <= n)%nat) :
  (forall s, rtc step (initial n) s -> (initCalls (shared s) <= 1)%nat) /\
  (forall s, rtc step (initial n) s -> all_returned s ->
     initCalls (shared s) = 1%nat /\
     once (shared s) = Completed /\
     connID (shared s) = 1 /\
     stdout (shared s) =
       [Printf "Database connection instance created (ID: %d)\n" [arg_int 1]] /\
     exists a,
       instance (shared s) = conn_at a /\
       heap (shared s) !! a = Some the_connection /\
       forall t, (t < n)%nat -> goroutines s !! t = Some (returned (conn_at a))) /\
  (forall s, rtc step (initial n) s -> ~ all_returned s -> exists s', step s s') /\
  (forall s, rtc step (initial n) s -> exists s', rtc step s s' /\ all_returned s') /\
  (forall k s, nsteps step k (initial n) s -> (k <= 6 * n)%nat).
Proof.
  assert (Hinv : forall s, rtc step (initial n) s -> invariant n s)
    by (intros s Hs; apply invariant_reachable; exact Hs).
  split; [|split; [|split; [|split]]].
  - intros s Hs. eapply invariant_initCalls; eauto.
  - intros s Hs Hall.
    destruct (invariant_all_returned n s Hn (Hinv s Hs) Hall) as [Hg Hret].
    rewrite Hg. do 4 (split; [reflexivity|]).
    exists 0%nat. split; [reflexivity|]. split; [reflexivity|]. exact Hret.
  - intros s Hs Hnot. eapply invariant_progress; eauto.
  - intros s Hs. eapply (invariant_completion n Hn (remaining_steps s)); eauto.
  - intros k s Hk. apply nsteps_remaining in Hk.
    rewrite remaining_steps_initial in Hk. lia.
Qed.

(** Running a schedule is an execution. *)
Lemma exec_reachable (schedule : list nat) :
  forall s : system, rtc step s (exec schedule s).
Proof.
  induction schedule as [|t rest IH]; intros s; [apply rtc_refl|].
  unfold exec. simpl. fold (exec rest).
  destruct (step_thread t s) as [s1|] eqn:Hstep; simpl; [|apply IH].
  eapply rtc_l; [exists t; exact Hstep|apply IH].
Qed.

(** Three goroutines: goroutine 1 wins the race, 0 and 2 try the gate while
    it is InProgress and have to wait, then everybody returns. *)
Lemma GetInstance_concurrent_callers_share_one_instance_witness :
  let s := exec [1; 0; 2; 1; 1; 1; 1; 1; 0; 2; 0; 2]%nat (initial 3) in
  initCalls (shared s) = 1%nat /\
  once (shared s) = Completed /\
  connID (shared s) = 1 /\
  stdout (shared s) =
    [Printf "Database connection instance created (ID: %d)\n" [arg_int 1]] /\
  exists a,
    instance (shared s) = conn_at a /\
    heap (shared s) !! a = Some the_connection /\
    forall t, (t < 3)%nat -> goroutines s !! t = Some (returned (conn_at a)).
Proof.
  cbv zeta.
  apply (proj1 (proj2
    (GetInstance_concurrent_callers_share_one_instance 3 ltac:(lia)))).
  - apply exec_reachable.
  - vm_compute. repeat constructor.
Defined.

(** A goroutine running alone does what the sequential [GetInstance] does. *)
Lemma GetInstance_lone_goroutine (g : globals) (r : conn_ptr) (g' : globals) :
  GetInstance g = Some (r, g') ->
  exec (replicate 6 0%nat) {| shared := g; goroutines := [at_Do] |} =
    {| shared := g'; goroutines := [returned r] |}.
Proof.
  destruct g as [i o c hp out k]. unfold GetInstance, once_Do.
  destruct o; cbn [once mbind option_bind]; intros H;
    try discriminate; injection H as <- <-; reflexivity.
Qed.

(** [GetInstance] has no error result and its function literal is three
    statements that cannot fail: whenever the gate is not InProgress the call
    returns with the gate Completed, and a first call returns a pointer to the
    connection it has just built. *)
Lemma GetInstance_returns (g : globals) :
  once g <> InProgress ->
  exists p g',
    GetInstance g = Some (p, g') /\ once g' = Completed /\
    (once g = Uninitialized ->
     p = conn_at (length (heap g)) /\
     exists c, deref p g' = Some (length (heap g), c) /\
               connectionID c = connID g' /\ isConnected c = false).
Proof.
  intros Hon. unfold GetInstance, once_Do.
  destruct (once g) eqn:E; [|congruence|].
  - eexists _, _. split; [reflexivity|]. split; [reflexivity|]. intros _.
    split; [reflexivity|]. simpl. rewrite list_lookup_middle by reflexivity.
    simpl. eexists. split; [reflexivity|]. split; reflexivity.
  - eexists _, _. split; [reflexivity|]. split; [exact E|]. discriminate.
Qed.

Lemma GetInstance_completed (g : globals) :
  once g = Completed -> GetInstance g = Some (instance g, g).
Proof. intros Hon. unfold GetInstance, once_Do. rewrite Hon. reflexivity. Qed.

Lemma run_call_completed (c : call) (g g' : globals) (ps : list conn_ptr) :
  once g = Completed -> run_call c g = Some (ps, g') ->
  same_registry g g' /\ Forall (eq (instance g)) ps.
Proof.
  intros Hon. unfold same_registry.
  destruct c; simpl.
  - rewrite (GetInstance_completed g Hon). simpl. intros H. injection H as <- <-.
    repeat split. repeat constructor.
  - unfold Connect. destruct (deref db g) as [[n d]|]; [|discriminate].
    destruct (negb (isConnected d)); simpl; intros H; injection H as <- <-;
      simpl; rewrite ?length_insert; repeat split; constructor.
  - unfold Disconnect. destruct (deref db g) as [[n d]|]; [|discriminate].
    destruct (isConnected d); simpl; intros H; injection H as <- <-;
      simpl; rewrite ?length_insert; repeat split; constructor.
  - unfold Query. destruct (deref db g) as [[n d]|]; [|discriminate].
    destruct (negb (isConnected d)); simpl; intros H; injection H as <- <-;
      simpl; repeat split; constructor.
  - unfold GetConnectionID. destruct (deref db g) as [[n d]|]; [|discriminate].
    simpl; intros H; injection H as <- <-; repeat split; constructor.
  - unfold GetConnectionString. destruct (deref db g) as [[n d]|]; [|discriminate].
    simpl; intros H; injection H as <- <-; repeat split; constructor.
Qed.

Lemma run_completed (calls : list call) :
  forall (g g' : globals) (ps : list conn_ptr),
  once g = Completed -> run calls g = Some (ps, g') ->
  same_registry g g' /\ Forall (eq (instance g)) ps.
Proof.
  induction calls as [|c rest IH]; intros g g' ps Hon; simpl.
  - intros H. injection H as <- <-. unfold same_registry. repeat split. constructor.
  - destruct (run_call c g) as [[ps1 g1]|] eqn:Hc; simpl; [|discriminate].
    destruct (run rest g1) as [[ps2 g2]|] eqn:Hr; simpl; [|discriminate].
    intros H. injection H as <- <-.
    destruct (run_call_completed c g g1 ps1 Hon Hc) as [(E1 & E2 & E3 & E4 & E5) F1].
    destruct (IH g1 g2 ps2 ltac:(congruence) Hr) as [(E1' & E2' & E3' & E4' & E5') F2].
    split; [unfold same_registry; repeat split; congruence|].
    apply Forall_app. split; [exact F1|]. rewrite <- E2. exact F2.
Qed.

Lemma run_GetInstance_completed (k : nat) (g : globals) :
  once g = Completed ->
  run (replicate k CallGetInstance) g = Some (replicate k (instance g), g).
Proof.
  intros Hon. induction k as [|k IH]; simpl; [reflexivity|].
  rewrite (GetInstance_completed g Hon). simpl. rewrite IH. reflexivity.
Qed.

Lemma settled_reachable (g : globals) (s s' : system) :
  once g = Completed -> settled g s -> rtc step s s' -> settled g s'.
Proof.
  intros Hon Hs Hrun. induction Hrun as [|x y z Hxy _ IH]; [exact Hs|].
  apply IH. eapply settled_step; eauto.
Qed.

(** C3: once the gate is Completed, a call of [GetInstance] returns the
    cached [instance] and leaves the package state exactly as it was, so any
    number of calls in sequence return that same pointer. No sequence of calls
    of the package's exported functions and methods changes the gate,
    [instance], [connID] or the number of initializer runs, or allocates a
    connection, and every [GetInstance] among them returns the same pointer.
    Goroutines that call [GetInstance] afterwards, however interleaved, leave
    the whole package state unchanged and return that pointer. The first call
    leads to this state: from an Uninitialized gate [GetInstance] returns with
    the gate Completed. *)
Theorem GetInstance_completed_is_terminal (g : globals) (Hdone : once g = Completed) :
  GetInstance g = Some (instance g, g) /\
  (forall k, run (replicate k CallGetInstance) g = Some (replicate k (instance g), g)) /\
  (forall calls ps g',
     run calls g = Some (ps, g') ->
     once g' = Completed /\ instance g' = instance g /\ connID g' = connID g /\
     initCalls g' = initCalls g /\ length (heap g') = length (heap g) /\
     Forall (eq (instance g)) ps) /\
  (forall m s',
     rtc step {| shared := g; goroutines := replicate m at_Do |} s' ->
     shared s' = g /\
     forall t r, goroutines s' !! t = Some (returned r) -> r = instance g) /\
  (forall g0, once g0 = Uninitialized ->
     exists p g1, GetInstance g0 = Some (p, g1) /\ once g1 = Completed /\
                  initCalls g1 = S (initCalls g0)).
Proof.
  split; [apply GetInstance_completed; exact Hdone|].
  split; [intros k; apply run_GetInstance_completed; exact Hdone|].
  split.
  { intros calls ps g' Hrun.
    destruct (run_completed calls g g' ps Hdone Hrun) as [(E1 & E2 & E3 & E4 & E5) F].
    repeat split; congruence. }
  split.
  { intros m s' Hrun.
    assert (Hinit : settled g {| shared := g; goroutines := replicate m at_Do |}).
    { split; [reflexivity|]. simpl. intros t p Hl.
      apply lookup_replicate in Hl. tauto. }
    destruct (settled_reachable g _ s' Hdone Hinit Hrun) as [Hg Hall].
    split; [exact Hg|]. intros t r Hl.
    destruct (Hall t _ Hl) as [H | [H | H]]; congruence. }
  intros g0 H0. unfold GetInstance, once_Do. rewrite H0. simpl.
  eexists _, _. split; [reflexivity|]. split; reflexivity.
Qed.

Lemma GetInstance_completed_is_terminal_witness :
  GetInstance finished = Some (conn_at 0, finished) /\
  GetInstance start = Some (conn_at 0, finished).
Proof.
  split; [|reflexivity].
  exact (proj1 (GetInstance_completed_is_terminal finished eq_refl)).
Defined.

End singleton_properties.

(** * More on package builder: validity, chains, independence *)

Section builder_chains.
Import golang builder.

Lemma valid_iff (c : ServerConfig) :
  valid c <-> ~ host_omitted c /\ ~ port_out_of_range c /\ ~ log_level_unknown c.
Proof.
  unfold valid, host_omitted, port_out_of_range, log_level_unknown.
  assert (Hdec : In (LogLevel c) ["debug"; "info"; "warn"; "error"] \/
                 ~ In (LogLevel c) ["debug"; "info"; "warn"; "error"]).
  { rewrite <- validLogLevels_spec.
    destruct (bool_map_index Method.validLogLevels (LogLevel c)); [left|right]; congruence. }
  split; [intros (H1 & H2 & H3); tauto|]. intros (H1 & H2 & H3).
  split; [exact H1|]. split; [lia|tauto].
Qed.

(** The two ways [Build] can end on a live builder. *)
Lemma Build_cases (h : heap) (n : nat) (bld : ServerConfigBuilder) :
  builders h !! n = Some bld ->
  (valid (config bld) /\
   Method.Build (builder_at n) h =
     Returned (config_at (length (configs h)), None)
              {| builders := builders h;
                 configs := (configs h ++ [config bld])%list |}) \/
  (~ valid (config bld) /\
   exists e,
     Method.Build (builder_at n) h = Returned (nil_config, Some e) h /\
     In (Field e, Error e)
        [("Host", "Host: host is required");
         ("Port", "Port: port must be between 1 and 65535");
         ("LogLevel", "LogLevel: log level must be one of: debug, info, warn, error")]).
Proof.
  intros Hlive. rewrite (Build_unfold h n bld Hlive). cbv zeta.
  rewrite valid_iff.
  destruct (String.eqb _ _) eqn:Eh.
  { right. split; [rewrite <- host_check; intuition congruence|].
    eexists. split; [reflexivity|]. simpl. auto. }
  destruct (_ || _) eqn:Ep.
  { right. split; [rewrite <- port_check; intuition congruence|].
    eexists. split; [reflexivity|]. simpl. auto. }
  destruct (negb _) eqn:El.
  { right. split; [rewrite <- log_level_check; intuition congruence|].
    eexists. split; [reflexivity|]. simpl. auto. }
  left. split; [|reflexivity].
  rewrite <- host_check, <- port_check, <- log_level_check.
  repeat split; congruence.
Qed.

(** X1. [Build] on a live builder never panics and returns exactly one of a
    configuration and an error: a non-nil pointer with a nil error when the
    staged configuration is valid (non-empty host, port in 1..65535, known
    log level), a nil pointer with a non-nil error otherwise. So a
    configuration obtained from [Build] is always valid. *)
Theorem Build_succeeds_iff_valid (h : heap) (n : nat) (bld : ServerConfigBuilder)
    (Hlive : builders h !! n = Some bld) :
  (valid (config bld) ->
     exists h', Method.Build (builder_at n) h
                = Returned (config_at (length (configs h)), None) h') /\
  (~ valid (config bld) ->
     exists e, Method.Build (builder_at n) h = Returned (nil_config, Some e) h) /\
  (forall p h', Method.Build (builder_at n) h = Returned (p, None) h' ->
     valid (config bld) /\ p <> nil_config) /\
  (forall p e h', Method.Build (builder_at n) h = Returned (p, Some e) h' ->
     ~ valid (config bld) /\ p = nil_config).
Proof.
  destruct (Build_cases h n bld Hlive) as [[V ->] | (V & e & -> & _)].
  - split; [intros _; eexists; reflexivity|]. split; [tauto|].
    split; intros; [|discriminate].
    split; [exact V|]. congruence.
  - split; [tauto|]. split; [intros _; eexists; reflexivity|].
    split; intros; [discriminate|].
    split; [exact V|]. congruence.
Qed.

Lemma Build_succeeds_iff_valid_witness :
  exists e,
    Method.Build (builder_at 0)
      {| builders := [{| config := with_Port 0 (with_Host "h" default_config) |}];
         configs := [] |}
    = Returned (nil_config, Some e)
      {| builders := [{| config := with_Port 0 (with_Host "h" default_config) |}];
         configs := [] |}.
Proof.
  apply (proj1 (proj2 (Build_succeeds_iff_valid
    {| builders := [{| config := with_Port 0 (with_Host "h" default_config) |}];
       configs := [] |}
    0%nat {| config := with_Port 0 (with_Host "h" default_config) |} eq_refl))).
  unfold valid. simpl. lia.
Defined.

(** X2. A failed [Build] changes nothing on the heap, so the builder can be
    corrected and built again, and the text of its error is one of three:
    the field name, a colon, and the reason. *)
Theorem Build_failure_is_clean (h h' : heap) (n : nat) (bld : ServerConfigBuilder)
    (p : config_ptr) (e : ValidationError)
    (Hlive : builders h !! n = Some bld)
    (Hfail : Method.Build (builder_at n) h = Returned (p, Some e) h') :
  h' = h /\
  ((Field e = "Host" /\ host_omitted (config bld) /\
    Error e = "Host: host is required") \/
   (Field e = "Port" /\ port_out_of_range (config bld) /\
    Error e = "Port: port must be between 1 and 65535") \/
   (Field e = "LogLevel" /\ log_level_unknown (config bld) /\
    Error e = "LogLevel: log level must be one of: debug, info, warn, error")).
Proof.
  rewrite (Build_unfold h n bld Hlive) in Hfail. cbv zeta in Hfail.
  destruct (String.eqb _ _) eqn:Eh.
  { injection Hfail as <- <- <-. split; [reflexivity|]. left.
    rewrite <- host_check. auto. }
  destruct (_ || _) eqn:Ep.
  { injection Hfail as <- <- <-. split; [reflexivity|]. right. left.
    rewrite <- port_check. auto. }
  destruct (negb _) eqn:El; [|discriminate].
  injection Hfail as <- <- <-. split; [reflexivity|]. right. right.
  rewrite <- log_level_check. auto.
Qed.

Lemma Build_failure_is_clean_witness :
  let h := {| builders := [{| config := with_LogLevel "INFO" (with_Host "h" default_config) |}];
              configs := [] |} in
  let e := {| Field := "LogLevel";
              Message := "log level must be one of: debug, info, warn, error" |} in
  h = h /\
  ((Field e = "Host" /\
    host_omitted (with_LogLevel "INFO" (with_Host "h" default_config)) /\
    Error e = "Host: host is required") \/
   (Field e = "Port" /\
    port_out_of_range (with_LogLevel "INFO" (with_Host "h" default_config)) /\
    Error e = "Port: port must be between 1 and 65535") \/
   (Field e = "LogLevel" /\
    log_level_unknown (with_LogLevel "INFO" (with_Host "h" default_config)) /\
    Error e = "LogLevel: log level must be one of: debug, info, warn, error")).
Proof.
  exact (Build_failure_is_clean
    {| builders := [{| config := with_LogLevel "INFO" (with_Host "h" default_config) |}];
       configs := [] |}
    _ 0%nat {| config := with_LogLevel "INFO" (with_Host "h" default_config) |}
    nil_config
    {| Field := "LogLevel";
       Message := "log level must be one of: debug, info, warn, error" |}
    eq_refl eq_refl).
Defined.

(** X3. [Build] does not consume the builder: called twice in a row on a
    valid builder it succeeds both times, the two pointers are different, each
    points to its own copy of the staged configuration, and the builder is
    left as it was. *)
Theorem Build_twice_gives_two_copies (h : heap) (n : nat) (bld : ServerConfigBuilder)
    (Hlive : builders h !! n = Some bld) (Hvalid : valid (config bld)) :
  exists p1 p2 h1 h2,
    Method.Build (builder_at n) h = Returned (p1, None) h1 /\
    Method.Build (builder_at n) h1 = Returned (p2, None) h2 /\
    p1 <> p2 /\
    load_config p1 h2 = Some (config bld) /\
    load_config p2 h2 = Some (config bld) /\
    builders h2 = builders h.
Proof.
  destruct (Build_cases h n bld Hlive) as [[_ H1] | [V _]]; [|contradiction].
  set (h1 := {| builders := builders h; configs := (configs h ++ [config bld])%list |}) in *.
  destruct (Build_cases h1 n bld Hlive) as [[_ H2] | [V _]]; [|contradiction].
  eexists _, _, _, _. split; [exact H1|]. split; [exact H2|]. simpl.
  split; [rewrite length_app; simpl; intros E; injection E; lia|].
  split; [|split; [|reflexivity]].
  - rewrite lookup_app_l by (rewrite length_app; simpl; lia).
    apply list_lookup_middle. reflexivity.
  - apply list_lookup_middle. reflexivity.
Qed.

Lemma Build_twice_gives_two_copies_witness :
  exists p1 p2 h1 h2,
    Method.Build (builder_at 0)
      {| builders := [{| config := with_Host "h" default_config |}]; configs := [] |}
      = Returned (p1, None) h1 /\
    Method.Build (builder_at 0) h1 = Returned (p2, None) h2 /\
    p1 <> p2 /\
    load_config p1 h2 = Some (with_Host "h" default_config) /\
    load_config p2 h2 = Some (with_Host "h" default_config) /\
    builders h2 = [{| config := with_Host "h" default_config |}].
Proof.
  apply (Build_twice_gives_two_copies
    {| builders := [{| config := with_Host "h" default_config |}]; configs := [] |}
    0%nat {| config := with_Host "h" default_config |} eq_refl).
  unfold valid. simpl. split; [discriminate|]. split; [lia|]. auto.
Defined.

Lemma last_written_snoc (f : field) (calls : list setter_call) (s : setter_call) :
  last_written f (calls ++ [s]) =
    if decide (target s = f) then Some (argument s) else last_written f calls.
Proof.
  induction calls as [|s0 rest IH]; simpl.
  - destruct (decide (target s = f)); reflexivity.
  - rewrite IH. destruct (decide (target s = f)); [reflexivity|].
    reflexivity.
Qed.

Lemma staged_after_snoc (calls : list setter_call) (s : setter_call) (c : ServerConfig) :
  staged_after (calls ++ [s]) c = assignment s (staged_after calls c).
Proof. unfold staged_after. rewrite fold_left_app. reflexivity. Qed.

Lemma staged_after_field (calls : list setter_call) (c : ServerConfig) (f : field) :
  get_field f (staged_after calls c) = default (get_field f c) (last_written f calls).
Proof.
  induction calls as [|s rest IH] using rev_ind; [reflexivity|].
  rewrite staged_after_snoc, last_written_snoc.
  destruct (decide (target s = f)) as [<-|Hne].
  - apply assignment_target.
  - rewrite assignment_frame by congruence. exact IH.
Qed.

(** X4. Last write wins, field by field: a chain of setter calls on a
    live builder returns the builder, and afterwards each field of its staged
    configuration holds the argument of the last call of the chain that sets
    that field, and the value it had before the chain if no call does. One
    more call at the end of the chain decides the field it sets. *)
Theorem chain_last_write_wins (calls : list setter_call) (h : heap) (n : nat)
    (bld : ServerConfigBuilder) (f : field)
    (Hlive : builders h !! n = Some bld) :
  (exists h' bld',
     chain calls (builder_at n) h = Returned (builder_at n) h' /\
     builders h' !! n = Some bld' /\
     get_field f (config bld') =
       default (get_field f (config bld)) (last_written f calls)) /\
  (forall s, target s = f ->
     exists h' bld',
       chain (calls ++ [s]) (builder_at n) h = Returned (builder_at n) h' /\
       builders h' !! n = Some bld' /\
       get_field f (config bld') = argument s).
Proof.
  assert (Hlt : (n < length (builders h))%nat) by (eapply lookup_lt_Some; eauto).
  split.
  - eexists _, _. split; [apply (chain_unfold calls h n bld Hlive)|]. simpl.
    split; [apply list_lookup_insert_eq; exact Hlt|]. simpl.
    apply staged_after_field.
  - intros s Hs. eexists _, _.
    split; [apply (chain_unfold (calls ++ [s]) h n bld Hlive)|]. simpl.
    split; [apply list_lookup_insert_eq; exact Hlt|]. simpl.
    rewrite staged_after_field, last_written_snoc.
    destruct (decide (target s = f)); [reflexivity|contradiction].
Qed.

Lemma chain_last_write_wins_witness :
  exists h' bld',
    chain [CallPort 1; CallHost "a"; CallPort 2; CallEnableSSL true] (builder_at 0)
      {| builders := [{| config := default_config |}]; configs := [] |}
    = Returned (builder_at 0) h' /\
    builders h' !! 0%nat = Some bld' /\
    get_field FPort (config bld') =
      default (get_field FPort default_config)
              (last_written FPort [CallPort 1; CallHost "a"; CallPort 2;
                                   CallEnableSSL true]).
Proof.
  exact (proj1 (chain_last_write_wins
    [CallPort 1; CallHost "a"; CallPort 2; CallEnableSSL true]
    {| builders := [{| config := default_config |}]; configs := [] |}
    0%nat {| config := default_config |} FPort eq_refl)).
Defined.

Lemma assignment_commute (s1 s2 : setter_call) (c : ServerConfig) :
  target s1 <> target s2 ->
  assignment s2 (assignment s1 c) = assignment s1 (assignment s2 c).
Proof. destruct s1, s2; simpl; intros H; try reflexivity; congruence. Qed.

Lemma assignment_overwrite (s1 s2 : setter_call) (c : ServerConfig) :
  target s1 = target s2 ->
  assignment s2 (assignment s1 c) = assignment s2 c.
Proof. destruct s1, s2; simpl; intros H; try reflexivity; discriminate. Qed.

(** A setter whose receiver is nil or dangling panics. *)
Lemma call_setter_dead (s : setter_call) (b : builder_ptr) (h : heap) :
  result_of (load_staged b h) = None ->
  call_setter s b h = Panicked NilDereference.
Proof.
  intros Hdead.
  destruct s; simpl;
    unfold Method.Host, Method.Port, Method.EnableSSL, Method.Timeout,
      Method.MaxConnections, Method.ReadTimeout, Method.WriteTimeout,
      Method.DatabaseURL, Method.EnableCache, Method.LogLevel,
      mbind, M_bind, bind;
    unfold load_staged in *; destruct b as [|n]; try reflexivity;
    destruct (builders h !! n); try reflexivity; discriminate.
Qed.

(** X5. Setters compose as assignments do, on every receiver and heap: two
    setters that write different fields can be called in either order, and of
    two setters that write the same field only the second counts. *)
Theorem setters_commute_or_overwrite (s1 s2 : setter_call) (b : builder_ptr) (h : heap) :
  (target s1 <> target s2 -> chain [s1; s2] b h = chain [s2; s1] b h) /\
  (target s1 = target s2 -> chain [s1; s2] b h = chain [s2] b h).
Proof.
  destruct (result_of (load_staged b h)) as [c|] eqn:Hload.
  - destruct b as [|n]; [discriminate|]. unfold load_staged in Hload.
    destruct (builders h !! n) as [bld|] eqn:Hlive; [|discriminate].
    rewrite !(chain_unfold _ h n bld Hlive). unfold staged_after. simpl.
    split; intros H.
    + rewrite (assignment_commute s1 s2) by exact H. reflexivity.
    + rewrite (assignment_overwrite s1 s2) by exact H. reflexivity.
  - simpl. unfold mbind, M_bind, bind.
    rewrite !call_setter_dead by exact Hload. split; reflexivity.
Qed.

Lemma setters_commute_or_overwrite_witness :
  chain [CallPort 1; CallPort 2] (builder_at 0)
        {| builders := [{| config := default_config |}]; configs := [] |}
  = chain [CallPort 2] (builder_at 0)
          {| builders := [{| config := default_config |}]; configs := [] |}.
Proof.
  exact (proj2 (setters_commute_or_overwrite (CallPort 1) (CallPort 2) (builder_at 0)
                  {| builders := [{| config := default_config |}]; configs := [] |})
               eq_refl).
Defined.

(** X6. A chain of setters fails all at once or not at all: it panics
    exactly when it calls at least one setter and the receiver is nil or
    dangling, at the first call and before anything is written; on a live
    builder no setter panics, whatever its argument. *)
Theorem chain_panics_iff_receiver_dead (calls : list setter_call) (b : builder_ptr)
    (h : heap) :
  (result_of (chain calls b h) = None <->
   calls <> [] /\ result_of (load_staged b h) = None) /\
  (result_of (chain calls b h) = None ->
   chain calls b h = Panicked NilDereference).
Proof.
  destruct (result_of (load_staged b h)) as [c|] eqn:Hload.
  - destruct b as [|n]; [discriminate|]. unfold load_staged in Hload.
    destruct (builders h !! n) as [bld|] eqn:Hlive; [|discriminate].
    rewrite (chain_unfold calls h n bld Hlive). simpl.
    split; [split; [discriminate|intros [_ H]; discriminate]|discriminate].
  - destruct calls as [|s rest].
    + simpl. split; [split; [discriminate|intros [H _]; contradiction]|discriminate].
    + simpl. unfold mbind, M_bind, bind. rewrite call_setter_dead by exact Hload.
      simpl. split; [split; [intros _; split; [discriminate|reflexivity]|reflexivity]|].
      reflexivity.
Qed.

(** X7. Builders are independent: a chain of setters on one live builder
    leaves the staged configuration of every other builder as it was, and
    [Build] on another builder returns what it would have returned before. *)
Theorem builders_are_independent (calls : list setter_call) (h : heap) (n m : nat)
    (bn bm : ServerConfigBuilder)
    (Hn : builders h !! n = Some bn) (Hm : builders h !! m = Some bm)
    (Hne : n <> m) :
  exists h',
    chain calls (builder_at n) h = Returned (builder_at n) h' /\
    load_config (config_field_of m) h' = Some (config bm) /\
    result_of (Method.Build (builder_at m) h') = result_of (Method.Build (builder_at m) h).
Proof.
  eexists. split; [apply (chain_unfold calls h n bn Hn)|].
  set (h' := {| builders := _; configs := _ |}).
  assert (Hm' : builders h' !! m = Some bm).
  { simpl. rewrite list_lookup_insert_ne by exact Hne. exact Hm. }
  split; [simpl; rewrite list_lookup_insert_ne by exact Hne; rewrite Hm; reflexivity|].
  rewrite (Build_unfold h' m bm Hm'), (Build_unfold h m bm Hm). cbv zeta.
  destruct (String.eqb _ _); [reflexivity|].
  destruct (_ || _); [reflexivity|].
  destruct (negb _); reflexivity.
Qed.

Lemma builders_are_independent_witness :
  exists h',
    chain [CallHost ""; CallPort 0] (builder_at 0)
      {| builders := [{| config := default_config |};
                      {| config := with_Host "h" default_config |}];
         configs := [] |}
    = Returned (builder_at 0) h' /\
    load_config (config_field_of 1) h' = Some (with_Host "h" default_config) /\
    result_of (Method.Build (builder_at 1) h') =
    result_of (Method.Build (builder_at 1)
      {| builders := [{| config := default_config |};
                      {| config := with_Host "h" default_config |}];
         configs := [] |}).
Proof.
  exact (builders_are_independent [CallHost ""; CallPort 0]
    {| builders := [{| config := default_config |};
                    {| config := with_Host "h" default_config |}];
       configs := [] |}
    0%nat 1%nat {| config := default_config |}
    {| config := with_Host "h" default_config |} eq_refl eq_refl ltac:(lia)).
Defined.

(** X8. The host is required: a chain from a new builder in which no call
    sets the host, or in which the last call that sets it sets it to the
    empty string, fails at [Build] naming "Host", whatever else it sets. *)
Theorem build_without_host_fails (calls : list setter_call) (h : heap)
    (Hhost : default (VString "") (last_written FHost calls) = VString "") :
  fails_naming "Host" (build_with calls) h /\
  exists e, build_with calls h =
              Returned (nil_config, Some e)
                {| builders := (builders h ++
                      [{| config := staged_after calls default_config |}])%list;
                   configs := configs h |} /\
            Error e = "Host: host is required".
Proof.
  pose proof (staged_after_field calls default_config FHost) as Hf.
  simpl in Hf. rewrite Hhost in Hf. injection Hf as Hf.
  unfold fails_naming. rewrite build_with_unfold.
  erewrite Build_unfold by (simpl; apply list_lookup_middle; reflexivity).
  cbv zeta. simpl config. rewrite Hf. simpl.
  split; [eexists _, _; reflexivity|]. eexists. split; reflexivity.
Qed.

Lemma build_without_host_fails_witness :
  fails_naming "Host"
    (build_with [CallPort 443; CallEnableSSL true; CallLogLevel "debug"]) empty_heap.
Proof.
  exact (proj1 (build_without_host_fails
    [CallPort 443; CallEnableSSL true; CallLogLevel "debug"] empty_heap eq_refl)).
Defined.

(** X9. The defaults are valid apart from the host: a chain from a new
    builder that ends with a non-empty host and never sets the port or the
    log level succeeds at [Build], and the configuration returned is the
    staged one, with port 8080 and level "info". *)
Theorem build_with_host_only_succeeds (calls : list setter_call) (h : heap) (host : string)
    (Hhost : last_written FHost calls = Some (VString host))
    (Hnonempty : host <> "")
    (Hport : last_written FPort calls = None)
    (Hlevel : last_written FLogLevel calls = None) :
  succeeds_with (staged_after calls default_config) (build_with calls) h /\
  Host (staged_after calls default_config) = host /\
  Port (staged_after calls default_config) = 8080 /\
  LogLevel (staged_after calls default_config) = "info".
Proof.
  pose proof (staged_after_field calls default_config FHost) as Hf1.
  pose proof (staged_after_field calls default_config FPort) as Hf2.
  pose proof (staged_after_field calls default_config FLogLevel) as Hf3.
  rewrite Hhost in Hf1. rewrite Hport in Hf2. rewrite Hlevel in Hf3.
  simpl in Hf1, Hf2, Hf3. injection Hf1 as Hf1. injection Hf2 as Hf2. injection Hf3 as Hf3.
  split; [|auto].
  unfold succeeds_with. rewrite build_with_unfold.
  match goal with |- context [Method.Build ?b ?hh] =>
    destruct (Build_cases hh (length (builders h))
                {| config := staged_after calls default_config |}) as [[_ ->] | [V _]]
  end.
  - simpl. apply list_lookup_middle. reflexivity.
  - eexists _, _. split; [reflexivity|]. simpl. apply list_lookup_middle. reflexivity.
  - exfalso. apply V. unfold valid. simpl config. rewrite Hf1, Hf2, Hf3.
    split; [exact Hnonempty|]. split; [lia|]. simpl. auto.
Qed.

Lemma build_with_host_only_succeeds_witness :
  succeeds_with
    (staged_after [CallTimeout 5; CallHost "a"; CallHost "b"; CallEnableCache true]
                  default_config)
    (build_with [CallTimeout 5; CallHost "a"; CallHost "b"; CallEnableCache true])
    empty_heap.
Proof.
  refine (proj1 (build_with_host_only_succeeds
    [CallTimeout 5; CallHost "a"; CallHost "b"; CallEnableCache true]
    empty_heap "b" eq_refl _ eq_refl eq_refl)).
  discriminate.
Defined.

(** X23. [Build] checks the host, the port and the log level and nothing
    else: a setter for any other field (timeouts, connection cap, SSL, cache,
    database URL) never fails and never changes whether [Build] succeeds or
    which error it returns, whatever value it is given, negative ones
    included. *)
Theorem Build_ignores_unchecked_fields (s : setter_call) (h : heap) (n : nat)
    (bld : ServerConfigBuilder)
    (Hlive : builders h !! n = Some bld)
    (Hfield : ~ In (target s) [FHost; FPort; FLogLevel]) :
  exists h',
    call_setter s (builder_at n) h = Returned (builder_at n) h' /\
    snd <$> result_of (Method.Build (builder_at n) h') =
    snd <$> result_of (Method.Build (builder_at n) h).
Proof.
  eexists. split; [apply (call_setter_unfold s h n bld Hlive)|].
  set (h' := {| builders := _; configs := _ |}).
  assert (Hlive' : builders h' !! n = Some {| config := assignment s (config bld) |}).
  { simpl. apply list_lookup_insert_eq. eapply lookup_lt_Some; eauto. }
  rewrite (Build_unfold h' n _ Hlive'), (Build_unfold h n bld Hlive). cbv zeta.
  assert (Hh : Host (assignment s (config bld)) = Host (config bld)).
  { pose proof (assignment_frame s FHost (config bld)) as H. simpl in H.
    assert (E : FHost <> target s) by (intros E; apply Hfield; rewrite <- E; simpl; auto).
    specialize (H E). congruence. }
  assert (Hp : Port (assignment s (config bld)) = Port (config bld)).
  { pose proof (assignment_frame s FPort (config bld)) as H. simpl in H.
    assert (E : FPort <> target s) by (intros E; apply Hfield; rewrite <- E; simpl; auto).
    specialize (H E). congruence. }
  assert (Hl : LogLevel (assignment s (config bld)) = LogLevel (config bld)).
  { pose proof (assignment_frame s FLogLevel (config bld)) as H. simpl in H.
    assert (E : FLogLevel <> target s)
      by (intros E; apply Hfield; rewrite <- E; simpl; auto).
    specialize (H E). congruence. }
  simpl config. rewrite Hh, Hp, Hl.
  destruct (String.eqb _ _); [reflexivity|].
  destruct (_ || _); [reflexivity|].
  destruct (negb _); reflexivity.
Qed.

Lemma Build_ignores_unchecked_fields_witness :
  exists h',
    call_setter (CallTimeout (-5)) (builder_at 0)
      {| builders := [{| config := with_Host "h" default_config |}]; configs := [] |}
    = Returned (builder_at 0) h' /\
    snd <$> result_of (Method.Build (builder_at 0) h') =
    snd <$> result_of (Method.Build (builder_at 0)
      {| builders := [{| config := with_Host "h" default_config |}]; configs := [] |}).
Proof.
  refine (Build_ignores_unchecked_fields (CallTimeout (-5))
    {| builders := [{| config := with_Host "h" default_config |}]; configs := [] |}
    0%nat {| config := with_Host "h" default_config |} eq_refl _).
  simpl. intros [H | [H | [H | []]]]; discriminate.
Defined.

End builder_chains.

(** * More on package factory: what the processors do *)

Section factory_processors.
Import golang factory.

(** What the factory built, read back from a successful call. *)
Lemma CreatePaymentProcessor_created (tag : PaymentType) (details : string_map) (p : handle) :
  CreatePaymentProcessor tag details = (Some p, None) ->
  (tag = CreditCard /\
   p = credit_card_handle {| cardNumber := map_index details "cardNumber";
                             cvv := map_index details "cvv" |}) \/
  (tag = PayPal /\ p = paypal_handle {| email := map_index details "email" |}) \/
  (tag = BankTransfer /\
   p = bank_transfer_handle {| accountNumber := map_index details "accountNumber";
                               routingNumber := map_index details "routingNumber" |}).
Proof.
  unfold CreatePaymentProcessor, CreditCard, PayPal, BankTransfer.
  destruct (String.eqb_spec tag "credit") as [->|_];
    [intros H; injection H as <-; auto|].
  destruct (String.eqb_spec tag "paypal") as [->|_];
    [intros H; injection H as <-; auto|].
  destruct (String.eqb_spec tag "bank") as [->|_];
    [intros H; injection H as <-; auto|].
  discriminate.
Qed.

(** X10. [Process] never returns a non-nil error. On a processor the
    factory built it either makes exactly one [Printf] call and returns nil,
    or panics before printing; it panics only for the credit discriminant
    with a card number under 4 bytes. PayPal and bank-transfer processors
    never panic: their one [Printf] call has the source's format string and
    the arguments [amount] and [details["email"]], respectively
    [details["accountNumber"]], the empty string when the key is missing. The
    text of the detail is printed as it is, unvalidated. *)
Theorem Process_returns_nil_or_panics (tag : PaymentType) (details : string_map)
    (amount : float) (p : handle)
    (Hcreated : CreatePaymentProcessor tag details = (Some p, None)) :
  match Process p amount with
  | Returned out err => err = None /\ length out = 1%nat
  | Panicked pn =>
      tag = CreditCard /\
      (String.length (map_index details "cardNumber") < 4)%nat /\
      pn = SliceBoundsOutOfRange
             (Z.of_nat (String.length (map_index details "cardNumber")) - 4)
  end /\
  (tag = PayPal ->
   Process p amount =
     Returned [Printf "Processing $%.2f via PayPal for %s\n"
                      [arg_float64 amount; arg_string (map_index details "email")]]
              None) /\
  (tag = BankTransfer ->
   Process p amount =
     Returned [Printf "Processing $%.2f via Bank Transfer to account %s\n"
                      [arg_float64 amount;
                       arg_string (map_index details "accountNumber")]]
              None).
Proof.
  destruct (CreatePaymentProcessor_created tag details p Hcreated)
    as [[-> ->] | [[-> ->] | [-> ->]]].
  - split; [|split; discriminate]. simpl.
    set (number := map_index details "cardNumber").
    destruct (Z.lt_ge_cases (Z.of_nat (String.length number)) 4) as [Hs|Hl].
    + rewrite slice_from_negative by lia. repeat split. lia.
    + destruct (slice_from_in_range number (Z.of_nat (String.length number) - 4))
        as (tail & -> & _); [lia|]. split; reflexivity.
  - split; [simpl; split; reflexivity|]. split; [reflexivity|discriminate].
  - split; [simpl; split; reflexivity|]. split; [discriminate|reflexivity].
Qed.

Lemma Process_returns_nil_or_panics_witness :
  Process (paypal_handle {| email := "" |}) 149.5%float =
    Returned [Printf "Processing $%.2f via PayPal for %s\n"
                     [arg_float64 149.5%float; arg_string (map_index nil_map "email")]]
             None.
Proof.
  exact (proj1 (proj2 (Process_returns_nil_or_panics PayPal nil_map 149.5%float
                         (paypal_handle {| email := "" |}) eq_refl)) eq_refl).
Defined.

(** X11. The name tells the variant: two processors built by the factory
    have the same [GetName()] exactly when they were requested with the same
    discriminant, whatever the details. *)
Theorem GetName_identifies_discriminant (tag1 tag2 : PaymentType)
    (details1 details2 : string_map) (p1 p2 : handle)
    (H1 : CreatePaymentProcessor tag1 details1 = (Some p1, None))
    (H2 : CreatePaymentProcessor tag2 details2 = (Some p2, None)) :
  GetName p1 = GetName p2 <-> tag1 = tag2.
Proof.
  destruct (CreatePaymentProcessor_created _ _ _ H1) as [[-> ->] | [[-> ->] | [-> ->]]];
    destruct (CreatePaymentProcessor_created _ _ _ H2) as [[-> ->] | [[-> ->] | [-> ->]]];
    simpl; split; intros H; try reflexivity; discriminate.
Qed.

Lemma GetName_identifies_discriminant_witness :
  GetName (paypal_handle {| email := "" |}) =
  GetName (paypal_handle {| email := "user@example.com" |}) <-> PayPal = PayPal.
Proof.
  exact (GetName_identifies_discriminant PayPal PayPal nil_map
           (make_map (<["email" := "user@example.com"]> ∅))
           (paypal_handle {| email := "" |})
           (paypal_handle {| email := "user@example.com" |}) eq_refl eq_refl).
Defined.

(** X12. [Process] uses one entry of the details and nothing else: when two
    details maps agree on the printed key of the discriminant (cardNumber,
    email or accountNumber), the processors built from them behave the same
    on every amount. In particular the cvv and the routing number are never
    printed. *)
Theorem Process_depends_on_printed_key_only (tag : PaymentType)
    (details1 details2 : string_map) (p1 p2 : handle) (amount : float)
    (H1 : CreatePaymentProcessor tag details1 = (Some p1, None))
    (H2 : CreatePaymentProcessor tag details2 = (Some p2, None))
    (Hkey : map_index details1 (printed_key tag) = map_index details2 (printed_key tag)) :
  Process p1 amount = Process p2 amount /\ GetName p1 = GetName p2.
Proof.
  destruct (CreatePaymentProcessor_created _ _ _ H1) as [[-> ->] | [[-> ->] | [-> ->]]];
    destruct (CreatePaymentProcessor_created _ _ _ H2) as [[E ->] | [[E ->] | [E ->]]];
    try discriminate E; vm_compute printed_key in Hkey; simpl; rewrite Hkey;
    split; reflexivity.
Qed.

Lemma Process_depends_on_printed_key_only_witness :
  Process (credit_card_handle {| cardNumber := "4242424242424242"; cvv := "123" |})
          149.5%float =
  Process (credit_card_handle {| cardNumber := "4242424242424242"; cvv := "" |})
          149.5%float /\
  GetName (credit_card_handle {| cardNumber := "4242424242424242"; cvv := "123" |}) =
  GetName (credit_card_handle {| cardNumber := "4242424242424242"; cvv := "" |}).
Proof.
  exact (Process_depends_on_printed_key_only CreditCard
    (make_map (<["cvv" := "123"]> (<["cardNumber" := "4242424242424242"]> ∅)))
    (make_map (<["cardNumber" := "4242424242424242"]> ∅))
    (credit_card_handle {| cardNumber := "4242424242424242"; cvv := "123" |})
    (credit_card_handle {| cardNumber := "4242424242424242"; cvv := "" |})
    149.5%float eq_refl eq_refl eq_refl).
Defined.

End factory_processors.

(** * More on package singleton: the connection and its callers *)

Section singleton_connection.
Import golang singleton.

Lemma deref_Some (db : conn_ptr) (g : globals) (n : nat) (c : DatabaseConnection) :
  deref db g = Some (n, c) <-> db = conn_at n /\ heap g !! n = Some c.
Proof.
  destruct db as [|m]; simpl; [split; [discriminate|intros [H _]; discriminate]|].
  destruct (heap g !! m) as [d|] eqn:E; simpl; split.
  - intros H. injection H as <- <-. auto.
  - intros [H1 H2]. injection H1 as <-. congruence.
  - discriminate.
  - intros [H1 H2]. injection H1 as <-. congruence.
Qed.

(** Overwriting the connection-state flag of one connection keeps the
    identity of every connection. *)
Lemma set_flag_identity (hp : list DatabaseConnection) (n : nat) (c : DatabaseConnection)
    (v : bool) (a : nat) (d : DatabaseConnection) :
  hp !! n = Some c -> hp !! a = Some d ->
  exists d', <[n := set_isConnected v c]> hp !! a = Some d' /\ same_identity d d'.
Proof.
  intros Hn Ha. destruct (decide (a = n)) as [->|Hne].
  - rewrite list_lookup_insert_eq by (eapply lookup_lt_Some; eauto).
    eexists. split; [reflexivity|]. rewrite Hn in Ha. injection Ha as <-.
    split; reflexivity.
  - rewrite list_lookup_insert_ne by congruence. exists d. split; [exact Ha|].
    split; reflexivity.
Qed.

Lemma run_call_identity (c : call) (g g' : globals) (ps : list conn_ptr) :
  run_call c g = Some (ps, g') ->
  forall a d, heap g !! a = Some d ->
  exists d', heap g' !! a = Some d' /\ same_identity d d'.
Proof.
  assert (Hsame : forall a d, heap g !! a = Some d ->
            exists d', heap g !! a = Some d' /\ same_identity d d')
    by (intros a d H; exists d; split; [exact H|split; reflexivity]).
  destruct c; simpl.
  - unfold GetInstance, once_Do. destruct (once g); simpl; intros H;
      try discriminate; injection H as <- <-; [|exact Hsame].
    intros a d Ha. exists d. simpl. split; [|split; reflexivity].
    rewrite lookup_app_l by (eapply lookup_lt_Some; eauto). exact Ha.
  - unfold Connect. destruct (deref db g) as [[n c0]|] eqn:E; [|discriminate].
    apply deref_Some in E as [_ Hn].
    destruct (negb (isConnected c0)); simpl; intros H; injection H as <- <-;
      [|exact Hsame].
    intros a d Ha. simpl. eapply set_flag_identity; eauto.
  - unfold Disconnect. destruct (deref db g) as [[n c0]|] eqn:E; [|discriminate].
    apply deref_Some in E as [_ Hn].
    destruct (isConnected c0); simpl; intros H; injection H as <- <-;
      [|exact Hsame].
    intros a d Ha. simpl. eapply set_flag_identity; eauto.
  - unfold Query. destruct (deref db g) as [[n c0]|]; [|discriminate].
    destruct (negb (isConnected c0)); simpl; intros H; injection H as <- <-;
      exact Hsame.
  - unfold GetConnectionID. destruct (deref db g) as [[n c0]|]; [|discriminate].
    simpl; intros H; injection H as <- <-; exact Hsame.
  - unfold GetConnectionString. destruct (deref db g) as [[n c0]|]; [|discriminate].
    simpl; intros H; injection H as <- <-; exact Hsame.
Qed.

(** X13. A connection keeps its identity: whatever sequence of calls of
    the package's functions and methods runs, every connection that existed
    before still exists afterwards at the same address, with the same ID and
    the same connection string. Only its connected flag can have changed. *)
Theorem connection_identity_is_immutable (calls : list call) :
  forall (g g' : globals) (ps : list conn_ptr) (Hrun : run calls g = Some (ps, g'))
         (a : nat) (d : DatabaseConnection) (Hlive : heap g !! a = Some d),
  exists d', heap g' !! a = Some d' /\ same_identity d d'.
Proof.
  induction calls as [|c rest IH]; intros g g' ps Hrun a d Hlive; simpl in Hrun.
  - injection Hrun as <- <-. exists d. split; [exact Hlive|split; reflexivity].
  - destruct (run_call c g) as [[ps1 g1]|] eqn:Hc; simpl in Hrun; [|discriminate].
    destruct (run rest g1) as [[ps2 g2]|] eqn:Hr; simpl in Hrun; [|discriminate].
    injection Hrun as <- <-.
    destruct (run_call_identity c g g1 ps1 Hc a d Hlive) as (d1 & H1 & I1 & J1).
    destruct (IH g1 g2 ps2 Hr a d1 H1) as (d2 & H2 & I2 & J2).
    exists d2. split; [exact H2|]. split; congruence.
Qed.

Lemma connection_identity_is_immutable_witness :
  exists d',
    heap (set_heap (<[0%nat := set_isConnected true the_connection]> (heap finished))
                   (print (Printf "Connected to database (ID: %d)\n" [arg_int 1]) finished))
      !! 0%nat = Some d' /\
    same_identity the_connection d'.
Proof.
  exact (connection_identity_is_immutable [CallConnect (conn_at 0)] finished
           (print (Printf "Connected to database (ID: %d)\n" [arg_int 1])
              (set_heap (<[0%nat := set_isConnected true the_connection]> (heap finished))
                 finished))
           [] eq_refl 0%nat the_connection eq_refl).
Defined.

(** A method call returns no pointer and leaves the gate, [instance],
    [connID], the number of initializer runs and the number of connections as
    they were, whatever the state of the gate. *)
Lemma run_call_method (c : call) (db : conn_ptr) (g g' : globals) (ps : list conn_ptr) :
  receiver c = Some db -> run_call c g = Some (ps, g') ->
  ps = [] /\ same_registry g g'.
Proof.
  unfold same_registry.
  destruct c; simpl; intros Hrec; try discriminate; clear Hrec;
    unfold Connect, Disconnect, Query, GetConnectionID, GetConnectionString;
    (destruct (deref db0 g) as [[n d]|]; [|discriminate]).
  - destruct (negb (isConnected d)); simpl; intros H; injection H as <- <-;
      simpl; rewrite ?length_insert; repeat split.
  - destruct (isConnected d); simpl; intros H; injection H as <- <-;
      simpl; rewrite ?length_insert; repeat split.
  - destruct (negb (isConnected d)); simpl; intros H; injection H as <- <-;
      simpl; repeat split.
  - simpl; intros H; injection H as <- <-; repeat split.
  - simpl; intros H; injection H as <- <-; repeat split.
Qed.

Lemma receiver_None (c : call) : receiver c = None -> c = CallGetInstance.
Proof. destruct c; simpl; intros H; try discriminate; reflexivity. Qed.

Lemma GetInstance_untouched (k : nat) (g g' : globals) (p : conn_ptr) :
  untouched k g -> GetInstance g = Some (p, g') ->
  p = conn_at k /\ initialized k g'.
Proof.
  intros (Hon & Hi & Hc & Hn & Hk). unfold GetInstance, once_Do. rewrite Hon. simpl.
  intros H. injection H as <- <-. rewrite Hk. split; [reflexivity|].
  unfold initialized. simpl. rewrite Hc, Hn, Hk, length_app. simpl.
  split; [reflexivity|]. split; [reflexivity|]. split; [reflexivity|].
  split; [reflexivity|]. split; [lia|].
  eexists. split; [apply list_lookup_middle; symmetry; exact Hk|].
  split; reflexivity.
Qed.

Lemma run_call_initialized (k : nat) (c : call) (g g' : globals) (ps : list conn_ptr) :
  initialized k g -> run_call c g = Some (ps, g') ->
  initialized k g' /\ Forall (eq (conn_at k)) ps.
Proof.
  intros (Hon & Hi & Hc & Hn & Hk & d & Hd & Hid) Hrun.
  destruct (run_call_completed c g g' ps Hon Hrun) as [(E1 & E2 & E3 & E4 & E5) F].
  destruct (run_call_identity c g g' ps Hrun k d Hd) as (d' & Hd' & I & J).
  split; [|rewrite <- Hi; exact F].
  unfold initialized. repeat split; try congruence.
  exists d'. split; [exact Hd'|]. destruct Hid as [Hid1 Hid2]. split; congruence.
Qed.

Lemma run_initialized (k : nat) (calls : list call) :
  forall (g g' : globals) (ps : list conn_ptr),
  initialized k g -> run calls g = Some (ps, g') ->
  initialized k g' /\ Forall (eq (conn_at k)) ps.
Proof.
  induction calls as [|c rest IH]; intros g g' ps Hg Hrun; simpl in Hrun.
  - injection Hrun as <- <-. split; [exact Hg|constructor].
  - destruct (run_call c g) as [[ps1 g1]|] eqn:Hc; simpl in Hrun; [|discriminate].
    destruct (run rest g1) as [[ps2 g2]|] eqn:Hr; simpl in Hrun; [|discriminate].
    injection Hrun as <- <-.
    destruct (run_call_initialized k c g g1 ps1 Hg Hc) as [Hg1 F1].
    destruct (IH g1 g2 ps2 Hg1 Hr) as [Hg2 F2].
    split; [exact Hg2|]. apply Forall_app. split; assumption.
Qed.

Lemma run_untouched (k : nat) (calls : list call) :
  forall (g g' : globals) (ps : list conn_ptr),
  untouched k g -> run calls g = Some (ps, g') ->
  Forall (eq (conn_at k)) ps /\
  (~ In CallGetInstance calls -> ps = [] /\ untouched k g') /\
  (In CallGetInstance calls -> ps <> [] /\ initialized k g').
Proof.
  induction calls as [|c rest IH]; intros g g' ps Hg Hrun; simpl in Hrun.
  - injection Hrun as <- <-. split; [constructor|]. split; [auto|intros []].
  - destruct (run_call c g) as [[ps1 g1]|] eqn:Hc; simpl in Hrun; [|discriminate].
    destruct (run rest g1) as [[ps2 g2]|] eqn:Hr; simpl in Hrun; [|discriminate].
    injection Hrun as <- <-.
    destruct (receiver c) as [db|] eqn:Hrec.
    + destruct (run_call_method c db g g1 ps1 Hrec Hc)
        as [-> (E1 & E2 & E3 & E4 & E5)].
      assert (Hg1 : untouched k g1).
      { destruct Hg as (Hon & Hi & Hcn & Hn & Hk). unfold untouched.
        repeat split; congruence. }
      destruct (IH g1 g2 ps2 Hg1 Hr) as (F & Hno & Hyes). simpl.
      split; [exact F|]. split.
      * intros Hnot. apply Hno. intros Hin. apply Hnot. right. exact Hin.
      * intros [Heq | Hin]; [subst c; discriminate|]. apply Hyes. exact Hin.
    + apply receiver_None in Hrec. subst c. simpl in Hc.
      destruct (GetInstance g) as [[p gi]|] eqn:Hgi; simpl in Hc; [|discriminate].
      injection Hc as <- <-.
      destruct (GetInstance_untouched k g gi p Hg Hgi) as [-> Hgi'].
      destruct (run_initialized k rest gi g2 ps2 Hgi' Hr) as [Hg2 F].
      split; [constructor; [reflexivity|exact F]|]. split.
      * intros Hnot. exfalso. apply Hnot. left. reflexivity.
      * intros _. split; [discriminate|exact Hg2].
Qed.

(** X14. One caller at a time, from a state in which [GetInstance] has
    not been called yet, whatever connections the client has allocated itself
    and whatever it does with them: in every sequence of calls that runs
    through, every [GetInstance] returns the same pointer, to a connection
    that did not exist before. If the sequence calls [GetInstance] at all,
    then afterwards the function passed to [once.Do] has run exactly once,
    [connID] is 1, and the package has allocated exactly one connection, the
    one [instance] points to, with ID 1 and the literal connection string. If
    it does not, the package variables still hold their zero values and no
    connection has been allocated. *)
Theorem sequential_program_creates_one_connection (calls : list call)
    (g g' : globals) (ps : list conn_ptr)
    (Hfresh : once g = Uninitialized /\ instance g = nil_conn /\
              connID g = 0 /\ initCalls g = 0%nat)
    (Hrun : run calls g = Some (ps, g')) :
  Forall (eq (conn_at (length (heap g)))) ps /\
  heap g !! length (heap g) = None /\
  (In CallGetInstance calls ->
     ps <> [] /\
     once g' = Completed /\ instance g' = conn_at (length (heap g)) /\
     connID g' = 1 /\ initCalls g' = 1%nat /\
     length (heap g') = S (length (heap g)) /\
     exists c, heap g' !! length (heap g) = Some c /\
               connectionID c = 1 /\
               connectionString c = "postgresql://localhost:5432/mydb") /\
  (~ In CallGetInstance calls ->
     ps = [] /\
     once g' = Uninitialized /\ instance g' = nil_conn /\
     connID g' = 0 /\ initCalls g' = 0%nat /\
     length (heap g') = length (heap g)).
Proof.
  assert (Hg : untouched (length (heap g)) g).
  { destruct Hfresh as (H1 & H2 & H3 & H4). unfold untouched. auto. }
  destruct (run_untouched _ calls g g' ps Hg Hrun) as (F & Hno & Hyes).
  split; [exact F|]. split; [apply lookup_ge_None; lia|]. split.
  - intros Hin. destruct (Hyes Hin) as [Hne (E1 & E2 & E3 & E4 & E5 & c & Hc & I1 & I2)].
    repeat (split; [assumption|]). exists c. auto.
  - intros Hnot. destruct (Hno Hnot) as [Hnil (E1 & E2 & E3 & E4 & E5)]. auto.
Qed.

(** The client allocates a connection of its own and connects it before
    the first [GetInstance]; the instance is a second connection. *)
Lemma sequential_program_creates_one_connection_witness :
  let g := set_heap [zero_connection] start in
  let calls := [CallConnect (conn_at 0); CallGetInstance;
                CallQuery (conn_at 0) "SELECT 1"; CallGetInstance] in
  exists g',
    run calls g = Some ([conn_at 1; conn_at 1], g') /\
    instance g' = conn_at 1 /\ initCalls g' = 1%nat /\
    length (heap g') = 2%nat.
Proof.
  cbv zeta. eexists. split; [reflexivity|].
  match goal with |- instance ?g' = _ /\ _ =>
    destruct (proj1 (proj2 (proj2
      (sequential_program_creates_one_connection
         [CallConnect (conn_at 0); CallGetInstance;
          CallQuery (conn_at 0) "SELECT 1"; CallGetInstance]
         (set_heap [zero_connection] start) g' [conn_at 1; conn_at 1]
         (conj eq_refl (conj eq_refl (conj eq_refl eq_refl))) eq_refl)))
      (or_intror (or_introl eq_refl)))
      as (_ & _ & Hi & _ & Hn & Hl & _)
  end.
  split; [exact Hi|]. split; [exact Hn|exact Hl].
Defined.

Lemma Connect_Disconnect_cases (db : conn_ptr) (g : globals) (n : nat)
    (c : DatabaseConnection) (Hlive : deref db g = Some (n, c)) :
  exists g1 g2,
    Connect db g = Returned tt g1 /\
    deref db g1 = Some (n, set_isConnected true c) /\
    Disconnect db g = Returned tt g2 /\
    deref db g2 = Some (n, set_isConnected false c) /\
    Connect db g1 =
      Returned tt (print (Printf "Already connected to database (ID: %d)\n"
                                 [arg_int (connectionID c)]) g1) /\
    Disconnect db g2 = Returned tt g2 /\
    (isConnected c = false ->
     exists g3, Disconnect db g1 = Returned tt g3 /\ heap g3 = heap g).
Proof.
  pose proof Hlive as Hd. apply deref_Some in Hd as [-> Hn].
  assert (Hlt : (n < length (heap g))%nat) by (eapply lookup_lt_Some; eauto).
  destruct c as [cs flag id]. unfold Connect, Disconnect. rewrite Hlive.
  destruct flag; simpl.
  - eexists _, _. split; [reflexivity|]. simpl. rewrite Hn. simpl.
    split; [reflexivity|]. split; [reflexivity|]. simpl.
    rewrite list_lookup_insert_eq by exact Hlt. simpl.
    split; [reflexivity|]. split; [reflexivity|]. split; [reflexivity|]. discriminate.
  - eexists _, _. split; [reflexivity|]. simpl.
    rewrite list_lookup_insert_eq by exact Hlt. simpl.
    split; [reflexivity|]. split; [reflexivity|]. rewrite Hn. simpl.
    split; [reflexivity|]. split; [reflexivity|]. split; [reflexivity|].
    intros _. eexists. split; [reflexivity|]. simpl.
    rewrite list_insert_insert_eq. apply list_insert_id. exact Hn.
Qed.

(** X15. The connected flag is a two-state switch. On a live connection
    [Connect] returns with the flag set and [Disconnect] with the flag clear,
    whatever the flag was. Calling either a second time changes no connection:
    a second [Connect] only prints "Already connected", a second [Disconnect]
    prints nothing. [Connect] then [Disconnect] on a connection that was
    disconnected restores every connection. *)
Theorem Connect_Disconnect_switch (db : conn_ptr) (g : globals) (n : nat)
    (c : DatabaseConnection) (Hlive : deref db g = Some (n, c)) :
  exists g1 g2,
    Connect db g = Returned tt g1 /\
    deref db g1 = Some (n, set_isConnected true c) /\
    Disconnect db g = Returned tt g2 /\
    deref db g2 = Some (n, set_isConnected false c) /\
    Connect db g1 =
      Returned tt (print (Printf "Already connected to database (ID: %d)\n"
                                 [arg_int (connectionID c)]) g1) /\
    Disconnect db g2 = Returned tt g2 /\
    (isConnected c = false ->
     exists g3, Disconnect db g1 = Returned tt g3 /\ heap g3 = heap g).
Proof. exact (Connect_Disconnect_cases db g n c Hlive). Qed.

Lemma Connect_Disconnect_switch_witness :
  exists g1 g2,
    Connect (conn_at 0) finished = Returned tt g1 /\
    deref (conn_at 0) g1 = Some (0%nat, set_isConnected true the_connection) /\
    Disconnect (conn_at 0) finished = Returned tt g2 /\
    deref (conn_at 0) g2 = Some (0%nat, set_isConnected false the_connection) /\
    Connect (conn_at 0) g1 =
      Returned tt (print (Printf "Already connected to database (ID: %d)\n"
                                 [arg_int (connectionID the_connection)]) g1) /\
    Disconnect (conn_at 0) g2 = Returned tt g2 /\
    (isConnected the_connection = false ->
     exists g3, Disconnect (conn_at 0) g1 = Returned tt g3 /\ heap g3 = heap finished).
Proof.
  exact (Connect_Disconnect_switch (conn_at 0) finished 0%nat the_connection eq_refl).
Defined.

(** X16. A query runs exactly when the connection is connected: right
    after [Connect], [Query] prints the statement and the connection ID; right
    after [Disconnect] it prints the not-connected error instead. Either way
    [Query] returns and changes nothing but standard output. *)
Theorem Query_runs_only_when_connected (db : conn_ptr) (g : globals) (n : nat)
    (c : DatabaseConnection) (sql : string) (Hlive : deref db g = Some (n, c)) :
  exists g1 g2,
    Connect db g = Returned tt g1 /\
    Query db sql g1 =
      Returned tt (print (Printf "Executing query: %s (Connection ID: %d)\n"
                                 [arg_string sql; arg_int (connectionID c)]) g1) /\
    Disconnect db g = Returned tt g2 /\
    Query db sql g2 =
      Returned tt
        (print (Printf "Error: Not connected to database. Call Connect() first.\n" []) g2).
Proof.
  destruct (Connect_Disconnect_cases db g n c Hlive)
    as (g1 & g2 & H1 & D1 & H2 & D2 & _).
  exists g1, g2. split; [exact H1|]. split; [|split; [exact H2|]].
  - unfold Query. rewrite D1. reflexivity.
  - unfold Query. rewrite D2. reflexivity.
Qed.

Lemma Query_runs_only_when_connected_witness :
  exists g1 g2,
    Connect (conn_at 0) finished = Returned tt g1 /\
    Query (conn_at 0) "SELECT * FROM users" g1 =
      Returned tt (print (Printf "Executing query: %s (Connection ID: %d)\n"
                                 [arg_string "SELECT * FROM users";
                                  arg_int (connectionID the_connection)]) g1) /\
    Disconnect (conn_at 0) finished = Returned tt g2 /\
    Query (conn_at 0) "SELECT * FROM users" g2 =
      Returned tt
        (print (Printf "Error: Not connected to database. Call Connect() first.\n" []) g2).
Proof.
  exact (Query_runs_only_when_connected (conn_at 0) finished 0%nat the_connection
           "SELECT * FROM users" eq_refl).
Defined.




(** X18. A method call panics exactly when its receiver is nil or points
    to no connection; with a live receiver each of the five methods returns. *)
Theorem method_panics_iff_receiver_dead (c : call) (db : conn_ptr) (g : globals)
    (Hmethod : receiver c = Some db) :
  run_call c g = None <-> deref db g = None.
Proof.
  destruct c; simpl in Hmethod; try discriminate; injection Hmethod as ->; simpl;
    unfold Connect, Disconnect, Query, GetConnectionID, GetConnectionString;
    destruct (deref db g) as [[n d]|]; simpl;
    try (split; [discriminate|discriminate]); try (split; reflexivity).
  - destruct (negb (isConnected d)); simpl; split; discriminate.
  - destruct (isConnected d); simpl; split; discriminate.
  - destruct (negb (isConnected d)); simpl; split; discriminate.
Qed.

Lemma method_panics_iff_receiver_dead_witness :
  run_call (CallQuery nil_conn "SELECT 1") finished = None <->
  deref nil_conn finished = None.
Proof.
  exact (method_panics_iff_receiver_dead (CallQuery nil_conn "SELECT 1") nil_conn
           finished eq_refl).
Defined.

End singleton_connection.

(** * More on package singleton: goroutines at the gate *)

Section singleton_goroutines.
Import golang singleton.

(** X19. Mutual exclusion: in every state of every execution of [n]
    goroutines calling [GetInstance], at most one goroutine is inside the
    function passed to [once.Do], and while one is inside, the gate is
    InProgress and no goroutine has come back from [once.Do]. *)
Theorem at_most_one_goroutine_initializes (n : nat) (s : system)
    (Hreach : rtc step (initial n) s) :
  (forall t1 t2 p1 p2,
     goroutines s !! t1 = Some p1 -> goroutines s !! t2 = Some p2 ->
     inside_closure p1 = true -> inside_closure p2 = true -> t1 = t2) /\
  (forall t p,
     goroutines s !! t = Some p -> inside_closure p = true ->
     once (shared s) = InProgress /\
     forall t' p', goroutines s !! t' = Some p' -> past_gate p' = false).
Proof.
  destruct (invariant_reachable n s Hreach) as [_ Hinv].
  destruct (once (shared s)) eqn:Hon.
  - destruct Hinv as [_ Hdo].
    split; intros; repeat match goal with
      H : goroutines s !! _ = Some ?p |- _ => apply Hdo in H; subst p end;
      discriminate.
  - destruct Hinv as (t0 & p0 & Hp0 & Hst & Hothers).
    assert (Hin : forall t p, goroutines s !! t = Some p ->
                              inside_closure p = true -> t = t0).
    { intros t p Hp Hi. destruct (decide (t = t0)) as [->|Hne]; [reflexivity|].
      rewrite (Hothers t p Hne Hp) in Hi. discriminate. }
    split.
    + intros t1 t2 p1 p2 H1 H2 I1 I2.
      rewrite (Hin t1 p1 H1 I1), (Hin t2 p2 H2 I2). reflexivity.
    + intros t p Hp Hi. split; [reflexivity|]. intros t' p' Hp'.
      destruct (decide (t' = t0)) as [->|Hne].
      * rewrite Hp0 in Hp'. injection Hp' as <-.
        destruct p0; simpl in Hst; try discriminate; reflexivity.
      * rewrite (Hothers t' p' Hne Hp'). reflexivity.
  - destruct Hinv as [_ Hpcs].
    split; intros; repeat match goal with
      H : goroutines s !! _ = Some ?p |- _ =>
        apply Hpcs in H; destruct H as [-> | [-> | ->]] end;
      discriminate.
Qed.

Lemma at_most_one_goroutine_initializes_witness :
  let s := exec [2; 0; 2; 1; 2]%nat (initial 3) in
  goroutines s !! 2%nat = Some at_print /\
  once (shared s) = InProgress /\
  forall t' p', goroutines s !! t' = Some p' -> past_gate p' = false.
Proof.
  cbv zeta. split; [reflexivity|].
  exact (proj2 (at_most_one_goroutine_initializes 3
                  (exec [2; 0; 2; 1; 2]%nat (initial 3)) (exec_reachable _ _))
               2%nat at_print eq_refl eq_refl).
Defined.

(** X20. Nothing is published early: in every state of every execution, a
    goroutine that has come back from [once.Do] finds the gate Completed and
    [instance] pointing to the fully built connection; a goroutine that has
    returned holds that pointer, never nil, and [GetConnectionID] through it
    gives 1, the same for all. *)
Theorem no_goroutine_sees_an_unfinished_instance (n : nat) (s : system) (t : nat) (p : pc)
    (Hreach : rtc step (initial n) s)
    (Hp : goroutines s !! t = Some p)
    (Hpast : past_gate p = true) :
  once (shared s) = Completed /\
  instance (shared s) = conn_at 0 /\
  heap (shared s) !! 0%nat = Some the_connection /\
  (forall r, p = returned r ->
     r = conn_at 0 /\ GetConnectionID r (shared s) = Returned 1 (shared s)).
Proof.
  destruct (invariant_reachable n s Hreach) as [_ Hinv].
  destruct (once (shared s)) eqn:Hon.
  - destruct Hinv as [_ Hdo]. rewrite (Hdo t p Hp) in Hpast. discriminate.
  - destruct Hinv as (t0 & p0 & Hp0 & Hst & Hothers).
    destruct (decide (t = t0)) as [->|Hne].
    + rewrite Hp0 in Hp. injection Hp as <-.
      destruct p0; simpl in Hst, Hpast; discriminate.
    + rewrite (Hothers t p Hne Hp) in Hpast. discriminate.
  - destruct Hinv as [Hg Hpcs]. rewrite Hg.
    split; [reflexivity|]. split; [reflexivity|]. split; [reflexivity|].
    intros r ->. destruct (Hpcs t _ Hp) as [H | [H | H]]; try discriminate.
    injection H as ->. split; reflexivity.
Qed.

Lemma no_goroutine_sees_an_unfinished_instance_witness :
  let s := exec [1; 1; 1; 1; 1; 0; 0]%nat (initial 2) in
  once (shared s) = Completed /\
  instance (shared s) = conn_at 0 /\
  heap (shared s) !! 0%nat = Some the_connection /\
  (forall r, returned (conn_at 0) = returned r ->
     r = conn_at 0 /\ GetConnectionID r (shared s) = Returned 1 (shared s)).
Proof.
  exact (no_goroutine_sees_an_unfinished_instance 2
           (exec [1; 1; 1; 1; 1; 0; 0]%nat (initial 2)) 0%nat (returned (conn_at 0))
           (exec_reachable _ _) eq_refl eq_refl).
Defined.

(** X21. The outcome does not depend on the interleaving: whenever all of
    [n] goroutines ([n] at least 1) have returned, the system is in one and
    the same state, with the package state [finished] and every goroutine
    holding the pointer to connection 0. *)
Theorem every_execution_ends_in_the_same_state (n : nat) (s : system)
    (Hn : (1 <= n)%nat)
    (Hreach : rtc step (initial n) s)
    (Hall : all_returned s) :
  s = {| shared := finished; goroutines := replicate n (returned (conn_at 0)) |}.
Proof.
  pose proof (invariant_reachable n s Hreach) as Hinv.
  destruct (invariant_all_returned n s Hn Hinv Hall) as [Hg Hret].
  destruct Hinv as [Hlen _]. destruct s as [g ps]. simpl in *. f_equal; [exact Hg|].
  apply list_eq. intros t. destruct (decide (t < n)%nat) as [Hlt|Hge].
  - rewrite (Hret t Hlt). symmetry. apply lookup_replicate. auto.
  - rewrite !lookup_ge_None_2; [reflexivity| |]; rewrite ?length_replicate; lia.
Qed.

Lemma every_execution_ends_in_the_same_state_witness :
  exec [0; 1; 0; 0; 1; 0; 0; 0; 1; 1]%nat (initial 2) =
  exec [1; 1; 1; 1; 1; 0; 0; 1]%nat (initial 2).
Proof.
  rewrite (every_execution_ends_in_the_same_state 2
             (exec [0; 1; 0; 0; 1; 0; 0; 0; 1; 1]%nat (initial 2)) ltac:(lia)
             (exec_reachable _ _) ltac:(vm_compute; repeat constructor)).
  rewrite (every_execution_ends_in_the_same_state 2
             (exec [1; 1; 1; 1; 1; 0; 0; 1]%nat (initial 2)) ltac:(lia)
             (exec_reachable _ _) ltac:(vm_compute; repeat constructor)).
  reflexivity.
Defined.





End singleton_goroutines.
